(** * The persistent todo store of [src/todo-server.js]

    A shallow embedding of [class TodoStore] and of the tool handlers that
    call it, followed by the properties of the store that the specification
    states.

    [src/todo-server.js] holds the store twice: the JavaScript source
    (lines 1-539) and the TypeScript source (lines 540-1114).  The two agree
    textually on every method except [createTodo]; both [createTodo]s are
    embedded, the shared methods once.

    Conventions of the embedding.
    - A JavaScript string is a [string]; each [ascii] stands for one UTF-16
      code unit below 256 (the Latin-1 range).
    - An optional property ([project?: string]) is an [option string];
      [None] is "absent or undefined".
    - [async] methods become computations in the state monad [M] over
      [World]: the todos directory, the console, the calls made to [fs], and
      the two sources of non-determinism the store reads, [Math.random] and
      the clock.
    - The file system is taken to be available: [fs.readdir], [fs.readFile]
      and [fs.writeFile] do not fail.  The only exception left is the
      [SyntaxError] of [JSON.parse], which [readTodosFile] catches.
    - [fs.readdir] lists the names of the directory sorted by code units,
      as Node does.

    The file has five parts: the program; the definitions that the
    properties are stated with; the lemmas on the operations of the store;
    the claims of the specification, C1 to C10, each with the theorem that
    settles it; further properties of the store, numbered from X1 to X21,
    that the specification does not state. *)

From Stdlib Require Import ZArith QArith Ascii String Lia.
From stdpp Require Import base option list sorting strings.

Local Open Scope Z_scope.
Local Open Scope nat_scope.

(** * The program *)

(** ** JavaScript strings *)

Definition code (c : ascii) : N := N_of_ascii c.

Definition in_range (lo hi : ascii) (c : ascii) : bool :=
  (code lo <=? code c)%N && (code c <=? code hi)%N.

(** The character class [[a-zA-Z0-9]]. *)
Definition is_alnum (c : ascii) : bool :=
  in_range "a" "z" c || in_range "A" "Z" c || in_range "0" "9" c.

(** [s.replace(/[^a-zA-Z0-9]/g, '-')] *)
Fixpoint sanitize (s : string) : string :=
  match s with
  | EmptyString => EmptyString
  | String c rest => String (if is_alnum c then c else "-"%char) (sanitize rest)
  end.

(** [String.prototype.toLowerCase] on one code unit of the Latin-1 range:
    [A-Z] and the accented capitals U+00C0-U+00DE (U+00D7, the
    multiplication sign, apart) move up by 32. *)
Definition toLowerCase_char (c : ascii) : ascii :=
  if in_range "A" "Z" c
     || ((192 <=? code c)%N && (code c <=? 222)%N && negb (code c =? 215)%N)
  then ascii_of_N (code c + 32) else c.

Fixpoint toLowerCase (s : string) : string :=
  match s with
  | EmptyString => EmptyString
  | String c rest => String (toLowerCase_char c) (toLowerCase rest)
  end.

(** [hay.includes(needle)]: [needle] starts at some position of [hay]. *)
Fixpoint includes (hay needle : string) : bool :=
  String.prefix needle hay
  || match hay with
     | EmptyString => false
     | String _ rest => includes rest needle
     end.

(** [s.endsWith(suffix)]: some tail of [s] is [suffix]. *)
Fixpoint endsWith (s suffix : string) : bool :=
  String.eqb s suffix
  || match s with
     | EmptyString => false
     | String _ rest => endsWith rest suffix
     end.

(** JavaScript truthiness of an optional string: [undefined] and [''] are
    falsy. *)
Definition truthy (v : option string) : bool :=
  match v with
  | Some s => negb (String.eqb s "")
  | None => false
  end.

(** [v || d] on an optional string. *)
Definition or_default (v : option string) (d : string) : string :=
  match v with
  | Some s => if String.eqb s "" then d else s
  | None => d
  end.

(** ** Numbers *)

(** [x | 0] on a number: truncation toward zero, then wrap-around to a signed
    32-bit integer (ToInt32).  Numbers are rationals here; every finite
    double is one, and the only arithmetic applied to them, multiplication
    by 16, is exact on doubles. *)
Definition ToInt32 (x : Q) : Z :=
  let t := Z.quot (Qnum x) (Z.pos (Qden x)) in
  ((t + 2 ^ 31) mod 2 ^ 32 - 2 ^ 31)%Z.

Definition hex_digit (d : Z) : ascii :=
  nth (Z.to_nat d) (list_ascii_of_string "0123456789abcdef") "0"%char.

Fixpoint hex_digits (fuel : nat) (n : Z) (acc : string) : string :=
  match fuel with
  | O => acc
  | S fuel' =>
      let acc' := String (hex_digit (n mod 16)%Z) acc in
      if (n / 16 =? 0)%Z then acc' else hex_digits fuel' (n / 16)%Z acc'
  end.

(** [v.toString(16)] on an integer. *)
Definition toString16 (v : Z) : string :=
  if (v <? 0)%Z
  then String "-" (hex_digits (S (Z.to_nat (Z.log2 (- v)))) (- v) "")
  else hex_digits (S (Z.to_nat (Z.log2 v))) v "".

(** ** Data model *)

(** [interface Todo].  [status] and [priority] are kept as the strings the
    JSON files hold. *)
Record Todo := mkTodo {
  id : string;
  content : string;
  status : string;
  priority : string;
  project : option string;
  conversation : option string;
  createdAt : string;
  updatedAt : string
}.

(** [Partial<Todo>]: the [updates] of [updateTodo] and the [todoData] of the
    TypeScript [createTodo], as the handlers build them.  [Some v] is a
    property that holds the string [v].  In [todoData], [None] is a property
    that is absent or [undefined], which [createTodo] does not tell apart; in
    [updates], [None] is a property that is absent: the [updateTask] handler
    leaves out every argument that is [undefined], and an [updates] object
    with a property set to [undefined] is not represented. *)
Record PartialTodo := mkPartial {
  p_id : option string;
  p_content : option string;
  p_status : option string;
  p_priority : option string;
  p_project : option string;
  p_conversation : option string;
  p_createdAt : option string;
  p_updatedAt : option string
}.

(** The object literal [todoData] that the [createTask] handler hands to the
    JavaScript [createTodo]: [content], [status] and [priority] come out of
    the tool's schema as strings, the other two may be undefined. *)
Record TodoData := mkData {
  data_content : string;
  data_status : string;
  data_priority : string;
  data_project : option string;
  data_conversation : option string
}.

(** [interface TodoFilters] *)
Record TodoFilters := mkFilters {
  f_status : option string;
  f_priority : option string;
  f_project : option string;
  f_conversation : option string;
  f_keyword : option string
}.

(** What [deleteTodo] resolves to, [null] apart: the literal
    [{ id, deleted: true }] or the cancelled record. *)
Inductive DeleteResult :=
  | Deleted (id0 : string) (deleted : bool)
  | Cancelled (todo : Todo).

(** ** The world of the store *)

(** The text of a file of the todos directory, seen through [JSON.parse]:
    either it parses, to the array of records [JSON.stringify] was given, or
    [JSON.parse] throws.  Texts that parse to anything else than an array of
    records ('{}', 'null', ...), which the store never writes, are left out:
    on them the methods of the store throw a [TypeError], which the
    handlers catch, log and answer with [success: false].  Every statement
    on a [World] is a statement on stores without such files. *)
Inductive FileText :=
  | Json (todos : list Todo)
  | Garbage.

(** The calls of the [fs] module.  The store never calls [fs.rename]; it is
    listed because the specification speaks of it. *)
Inductive FsCall :=
  | Readdir
  | ExistsSync (file : string)
  | ReadFile (file : string)
  | WriteFile (file : string) (data : FileText)
  | Rename (oldPath newPath : string).

(** [dir] is [TODOS_DIR], its entries named relative to it; the order in
    which the list holds them means nothing, [fs.readdir] below sorts the
    names.  [random n] is what the [n]-th call of [Math.random()] returns,
    [clock n] what the [n]-th [new Date().toISOString()] returns. *)
Record World := mkWorld {
  dir : list (string * FileText);
  console : list string;
  fs_calls : list FsCall;
  random : nat → Q;
  random_calls : nat;
  clock : nat → string;
  clock_calls : nat
}.

Definition M (A : Type) : Type := World → A * World.

Definition ret {A} (a : A) : M A := λ w, (a, w).

Definition bind {A B} (m : M A) (k : A → M B) : M B :=
  λ w, let (a, w') := m w in k a w'.

Notation "'let*' x := m 'in' k" := (bind m (λ x, k))
  (at level 10, x name, m at level 100, k at level 200,
   format "'[v' 'let*'  x  :=  m  'in' '/' k ']'").

Definition result {A} (m : M A) (w : World) : A := fst (m w).

Definition after {A} (m : M A) (w : World) : World := snd (m w).

Definition log_call (c : FsCall) (w : World) : World :=
  mkWorld (dir w) (console w) (fs_calls w ++ [c])
          (random w) (random_calls w) (clock w) (clock_calls w).

(** The first entry of the directory under a name. *)
Fixpoint lookup_file (file : string) (d : list (string * FileText))
  : option FileText :=
  match d with
  | [] => None
  | (name, text) :: rest =>
      if String.eqb name file then Some text else lookup_file file rest
  end.

(** Replacing the text of an entry, or adding the entry when there is
    none. *)
Fixpoint store_file (file : string) (text : FileText)
  (d : list (string * FileText)) : list (string * FileText) :=
  match d with
  | [] => [(file, text)]
  | (name, old) :: rest =>
      if String.eqb name file then (name, text) :: rest
      else (name, old) :: store_file file text rest
  end.

(** The order of [fs.readdir]: Node lists the names of a directory sorted
    by their code units (libuv sorts the entries with [strcmp]), so
    'a.json' comes before 'default.json', wherever it was created. *)
Definition name_le (a b : string) : Prop := String.leb a b = true.

#[global] Instance name_le_dec : RelDecision name_le :=
  λ a b, decide (String.leb a b = true).

Definition sorted_names (d : list (string * FileText)) : list string :=
  merge_sort name_le (map fst d).

(** [fs.readdir(TODOS_DIR)] *)
Definition fs_readdir : M (list string) :=
  λ w, (sorted_names (dir w), log_call Readdir w).

(** [existsSync(path.join(TODOS_DIR, file))] *)
Definition existsSync (file : string) : M bool :=
  λ w, (bool_decide (is_Some (lookup_file file (dir w))),
        log_call (ExistsSync file) w).

(** [fs.readFile(path, 'utf8')]; [None] is the exception for a missing
    file. *)
Definition fs_readFile (file : string) : M (option FileText) :=
  λ w, (lookup_file file (dir w), log_call (ReadFile file) w).

(** [fs.writeFile(path, data, 'utf8')] *)
Definition fs_writeFile (file : string) (data : FileText) : M unit :=
  λ w, (tt, mkWorld (store_file file data (dir w)) (console w)
                    (fs_calls w ++ [WriteFile file data])
                    (random w) (random_calls w) (clock w) (clock_calls w)).

(** [console.error(line, error)] *)
Definition console_error (line : string) : M unit :=
  λ w, (tt, mkWorld (dir w) (console w ++ [line]) (fs_calls w)
                    (random w) (random_calls w) (clock w) (clock_calls w)).

(** [Math.random()] *)
Definition Math_random : M Q :=
  λ w, (random w (random_calls w),
        mkWorld (dir w) (console w) (fs_calls w)
                (random w) (S (random_calls w)) (clock w) (clock_calls w)).

(** [new Date().toISOString()] *)
Definition Date_toISOString : M string :=
  λ w, (clock w (clock_calls w),
        mkWorld (dir w) (console w) (fs_calls w)
                (random w) (random_calls w) (clock w) (S (clock_calls w))).

(** ** class TodoStore *)

(** [JSON.stringify(todos, null, 2)]: the text that parses back to [todos]. *)
Definition JSON_stringify (todos : list Todo) : FileText := Json todos.

(** [JSON.parse(data)]; [None] is the [SyntaxError]. *)
Definition JSON_parse (data : FileText) : option (list Todo) :=
  match data with
  | Json todos => Some todos
  | Garbage => None
  end.

(** [DEFAULT_TODOS_FILE] (line 10), relative to [TODOS_DIR]. *)
Definition DEFAULT_TODOS_FILE : string := "default.json".

(** [ensureDirectoriesExist] (lines 19-31), as far as the files of
    [TODOS_DIR] go.  When the default file does not exist, [fs.writeFile] is
    called with the text ['[]'] and its promise is dropped: the method
    returns while the write is under way.  The result is that write, to be
    run when it completes; it is [ret tt] when nothing is written. *)
Definition ensureDirectoriesExist : M (M unit) :=
  let* found := existsSync DEFAULT_TODOS_FILE in
  ret (if negb found then fs_writeFile DEFAULT_TODOS_FILE (Json [])
       else ret tt).

(** [getTodoFiles] (lines 34-37) *)
Definition getTodoFiles : M (list string) :=
  let* files := fs_readdir in
  ret (filter (λ file, endsWith file ".json") files).

(** [readTodosFile] (lines 40-52).  Both ways into the [catch] block, a
    failed [fs.readFile] and a failed [JSON.parse], log and give [[]]. *)
Definition readTodosFile (filePath : string) : M (list Todo) :=
  let* found := existsSync filePath in
  if negb found then ret []
  else
    let* data := fs_readFile filePath in
    match data ≫= JSON_parse with
    | Some todos => ret todos
    | None =>
        let* _ := console_error ("Error reading todos file " +:+ filePath +:+ ":") in
        ret []
    end.

(** [writeTodosFile] (lines 55-62); with [fs.writeFile] not failing, its
    [catch] block is never entered. *)
Definition writeTodosFile (filePath : string) (todos : list Todo) : M unit :=
  fs_writeFile filePath (JSON_stringify todos).

(** [getAllTodos] (lines 65-76) *)
Fixpoint getAllTodos_loop (files : list string) (allTodos : list Todo)
  : M (list Todo) :=
  match files with
  | [] => ret allTodos
  | file :: rest =>
      let* todos := readTodosFile file in
      getAllTodos_loop rest (allTodos ++ todos)
  end.

Definition getAllTodos : M (list Todo) :=
  let* files := getTodoFiles in
  getAllTodos_loop files [].

(** [todos.find(todo => todo.id === id)] and
    [todos.findIndex(todo => todo.id === id)] together: the first index
    whose record has the id, with that record; [None] is [-1]. *)
Definition findIndex (id0 : string) (todos : list Todo) : option (nat * Todo) :=
  list_find (λ todo, id todo = id0) todos.

(** [getTodoById] (lines 79-93) *)
Fixpoint getTodoById_loop (id0 : string) (files : list string)
  : M (option Todo) :=
  match files with
  | [] => ret None
  | file :: rest =>
      let* todos := readTodosFile file in
      match findIndex id0 todos with
      | Some (_, todo) => ret (Some todo)
      | None => getTodoById_loop id0 rest
      end
  end.

Definition getTodoById (id0 : string) : M (option Todo) :=
  let* files := getTodoFiles in
  getTodoById_loop id0 files.

(** [generateUUID] (lines 186-192): the function given to [replace]. *)
Definition generateUUID_digit (c : ascii) : M string :=
  let* x := Math_random in
  let r := ToInt32 (x * 16) in
  let v := if Ascii.eqb c "x" then r else Z.lor (Z.land r 3) 8 in
  ret (toString16 v).

(** [template.replace(/[xy]/g, f)], left to right. *)
Fixpoint replace_xy (f : ascii → M string) (template : string) : M string :=
  match template with
  | EmptyString => ret EmptyString
  | String c rest =>
      if Ascii.eqb c "x" || Ascii.eqb c "y" then
        let* digit := f c in
        let* tail := replace_xy f rest in
        ret (digit +:+ tail)
      else
        let* tail := replace_xy f rest in
        ret (String c tail)
  end.

Definition uuid_template : string := "xxxxxxxx-xxxx-4xxx-yxxx-xxxxxxxxxxxx".

Definition generateUUID : M string :=
  replace_xy generateUUID_digit uuid_template.

(** The shard a new record goes to ([createTodo], lines 97-102): the name
    of its file under [TODOS_DIR]. *)
Definition todosFileFor (project0 : option string) : string :=
  match project0 with
  | Some p => if truthy (Some p) then sanitize p +:+ ".json"
              else DEFAULT_TODOS_FILE
  | None => DEFAULT_TODOS_FILE
  end.

(** [createTodo], JavaScript source (lines 96-117): the record is
    [{ id, createdAt, updatedAt, ...todoData }]. *)
Definition createTodo (todoData : TodoData) : M Todo :=
  let filePath := todosFileFor (data_project todoData) in
  let* todos := readTodosFile filePath in
  let* id0 := generateUUID in
  let* created := Date_toISOString in
  let* updated := Date_toISOString in
  let newTodo :=
    mkTodo id0 (data_content todoData) (data_status todoData)
           (data_priority todoData) (data_project todoData)
           (data_conversation todoData) created updated in
  let* _ := writeTodosFile filePath (todos ++ [newTodo]) in
  ret newTodo.

(** [createTodo], TypeScript source (lines 656-681): [content], [status]
    and [priority] are filled with [||], [project] and [conversation] are
    kept only when truthy. *)
Definition createTodo_ts (todoData : PartialTodo) : M Todo :=
  let filePath := todosFileFor (p_project todoData) in
  let* todos := readTodosFile filePath in
  let* id0 := generateUUID in
  let* created := Date_toISOString in
  let* updated := Date_toISOString in
  let newTodo :=
    mkTodo id0
           (or_default (p_content todoData) "")
           (or_default (p_status todoData) "pending")
           (or_default (p_priority todoData) "medium")
           (if truthy (p_project todoData) then p_project todoData else None)
           (if truthy (p_conversation todoData) then p_conversation todoData
            else None)
           created updated in
  let* _ := writeTodosFile filePath (todos ++ [newTodo]) in
  ret newTodo.

(** [{ ...todo, ...updates, updatedAt }], for an [updates] object whose
    properties hold strings. *)
Definition spread (todo : Todo) (updates : PartialTodo) (now : string) : Todo :=
  mkTodo (default (id todo) (p_id updates))
         (default (content todo) (p_content updates))
         (default (status todo) (p_status updates))
         (default (priority todo) (p_priority updates))
         (match p_project updates with Some v => Some v | None => project todo end)
         (match p_conversation updates with
          | Some v => Some v
          | None => conversation todo
          end)
         (default (createdAt todo) (p_createdAt updates))
         now.

(** [updateTodo] (lines 120-143) *)
Fixpoint updateTodo_loop (id0 : string) (updates : PartialTodo)
  (files : list string) : M (option Todo) :=
  match files with
  | [] => ret None
  | file :: rest =>
      let* todos := readTodosFile file in
      match findIndex id0 todos with
      | Some (index, todo) =>
          let* now := Date_toISOString in
          let updatedTodo := spread todo updates now in
          let* _ := writeTodosFile file (<[index := updatedTodo]> todos) in
          ret (Some updatedTodo)
      | None => updateTodo_loop id0 updates rest
      end
  end.

Definition updateTodo (id0 : string) (updates : PartialTodo) : M (option Todo) :=
  let* files := getTodoFiles in
  updateTodo_loop id0 updates files.

(** [todos[index].status = 'cancelled'; todos[index].updatedAt = now] *)
Definition cancel (todo : Todo) (now : string) : Todo :=
  mkTodo (id todo) (content todo) "cancelled" (priority todo) (project todo)
         (conversation todo) (createdAt todo) now.

(** [deleteTodo] (lines 146-169) *)
Fixpoint deleteTodo_loop (id0 : string) (hardDelete : bool)
  (files : list string) : M (option DeleteResult) :=
  match files with
  | [] => ret None
  | file :: rest =>
      let* todos := readTodosFile file in
      match findIndex id0 todos with
      | Some (index, todo) =>
          if hardDelete then
            let* _ := writeTodosFile file (delete index todos) in
            ret (Some (Deleted id0 true))
          else
            let* now := Date_toISOString in
            let cancelled := cancel todo now in
            let* _ := writeTodosFile file (<[index := cancelled]> todos) in
            ret (Some (Cancelled cancelled))
      | None => deleteTodo_loop id0 hardDelete rest
      end
  end.

Definition deleteTodo (id0 : string) (hardDelete : bool)
  : M (option DeleteResult) :=
  let* files := getTodoFiles in
  deleteTodo_loop id0 hardDelete files.

(** The callback of [filterTodos] (lines 175-182). *)
Definition passes (filters : TodoFilters) (todo : Todo) : bool :=
  if truthy (f_status filters)
     && negb (bool_decide (Some (status todo) = f_status filters)) then false
  else if truthy (f_priority filters)
     && negb (bool_decide (Some (priority todo) = f_priority filters)) then false
  else if truthy (f_project filters)
     && negb (bool_decide (project todo = f_project filters)) then false
  else if truthy (f_conversation filters)
     && negb (bool_decide (conversation todo = f_conversation filters)) then false
  else if truthy (f_keyword filters)
     && negb (includes (toLowerCase (content todo))
                       (toLowerCase (default "" (f_keyword filters)))) then false
  else true.

(** [filterTodos] (lines 172-183) *)
Definition filterTodos (filters : TodoFilters) : M (list Todo) :=
  let* allTodos := getAllTodos in
  ret (filter (λ todo, passes filters todo) allTodos).

(** ** Tool handlers *)

(** The JSON text a handler answers with: [{ success: true, data, count }],
    [{ success: true, data }], [{ success: false, error: 'Task not found',
    id }], or the answer of a [catch] block.  The store operations above
    throw nothing, so no handler below enters its [catch] block. *)
Inductive ToolResponse :=
  | Tasks (data : list Todo) (count : nat)
  | Task (data : Todo)
  | Outcome (data : DeleteResult)
  | TaskNotFound (id0 : string)
  | Failed (error : string).

(** [getAllTasks] (lines 216-251) *)
Definition getAllTasks : M ToolResponse :=
  let* allTasks := getAllTodos in
  ret (Tasks allTasks (length allTasks)).

(** [getTask] (lines 254-305) *)
Definition getTask (id0 : string) : M ToolResponse :=
  let* task := getTodoById id0 in
  match task with
  | Some todo => ret (Task todo)
  | None => ret (TaskNotFound id0)
  end.

(** [createTask] (lines 308-356).  The arguments are the caller's; the
    schema of the tool requires [content] to be a string and fills [status]
    and [priority] with [.default('pending')] and [.default('medium')]
    before the handler runs. *)
Definition createTask (content0 : string)
  (status0 priority0 project0 conversation0 : option string) : M ToolResponse :=
  let todoData :=
    mkData content0 (default "pending" status0) (default "medium" priority0)
           project0 conversation0 in
  let* newTask := createTodo todoData in
  ret (Task newTask).

(** [createTask], TypeScript source (lines 861-915) *)
Definition createTask_ts (content0 : string)
  (status0 priority0 project0 conversation0 : option string) : M ToolResponse :=
  let todoData :=
    mkPartial None (Some content0) (Some (default "pending" status0))
              (Some (default "medium" priority0)) project0 conversation0
              None None in
  let* newTask := createTodo_ts todoData in
  ret (Task newTask).

(** [updateTask] (lines 359-422): [updates] gets exactly the arguments that
    are not [undefined]. *)
Definition updateTask (id0 : string)
  (content0 status0 priority0 project0 conversation0 : option string)
  : M ToolResponse :=
  let updates :=
    mkPartial None content0 status0 priority0 project0 conversation0
              None None in
  let* updatedTask := updateTodo id0 updates in
  match updatedTask with
  | Some todo => ret (Task todo)
  | None => ret (TaskNotFound id0)
  end.

(** [deleteTask] (lines 425-477); [hardDelete] has [.default(false)]. *)
Definition deleteTask (id0 : string) (hardDelete : option bool) : M ToolResponse :=
  let* outcome := deleteTodo id0 (default false hardDelete) in
  match outcome with
  | Some data => ret (Outcome data)
  | None => ret (TaskNotFound id0)
  end.

(** [filterTasks] (lines 480-529) *)
Definition filterTasks (filters : TodoFilters) : M ToolResponse :=
  let* filteredTasks := filterTodos filters in
  ret (Tasks filteredTasks (length filteredTasks)).

(** * Stating the properties *)

(** ** Stores to run the operations on *)

(** A store with an empty todos directory, a silent console, and the given
    random numbers and timestamps. *)
Definition fresh_world (rnd : nat → Q) (clk : nat → string) : World :=
  mkWorld [] [] [] rnd 0 clk 0.

(** A store to try the operations on: the random numbers run through the
    sixteenths, the clock through the first days of 2023. *)
Definition example_random (n : nat) : Q := (Z.of_nat (n mod 16) # 16)%Q.

Definition example_clock (n : nat) : string :=
  "2023-01-0" +:+ toString16 (Z.of_nat (S n)) +:+ "T00:00:00.000Z".

Definition example_world : World := fresh_world example_random example_clock.

(** A store whose every random number is 0. *)
Definition stuck_world : World := fresh_world (λ _, 0%Q) example_clock.

(** A store with two records, 'fix bug' of high priority and 'write docs'
    of low priority. *)
Definition two_tasks_world : World :=
  after (createTask "write docs" None (Some "low") None None)
        (after (createTask "fix bug" None (Some "high") None None)
               example_world).

(** The store once [new TodoStore()] has returned and the write that
    [ensureDirectoriesExist] started, if any, has completed, nothing else
    having touched the directory in between. *)
Definition constructed (w : World) : World :=
  after (result ensureDirectoriesExist w) (after ensureDirectoriesExist w).

(** A store whose default file does not parse. *)
Definition corrupt_world : World :=
  mkWorld [(DEFAULT_TODOS_FILE, Garbage)] [] [] example_random 0
          example_clock 0.

(** The world [w] with the file [file] holding the empty array. *)
Definition emptied (file : string) (w : World) : World :=
  mkWorld (store_file file (Json []) (dir w)) (console w) (fs_calls w)
          (random w) (random_calls w) (clock w) (clock_calls w).

(** A sequence of [createTodo] calls, one after the other, and the records
    they return. *)
Fixpoint createTodos (inputs : list TodoData) : M (list Todo) :=
  match inputs with
  | [] => ret []
  | todoData :: rest =>
      let* newTodo := createTodo todoData in
      let* others := createTodos rest in
      ret (newTodo :: others)
  end.

(** ** Views of the todos directory

    What the read paths compute, as functions of the directory alone; the
    lemmas of the next part show that the methods of the store compute
    exactly these. *)

Definition read_todos (file : string) (d : list (string * FileText)) : list Todo :=
  default [] (lookup_file file d ≫= JSON_parse).

Definition todo_files (d : list (string * FileText)) : list string :=
  filter (λ file, endsWith file ".json") (sorted_names d).

(** A name put in its place in a sorted list of names. *)
Fixpoint insert_name (file : string) (files : list string) : list string :=
  match files with
  | [] => [file]
  | g :: rest =>
      if String.leb file g then file :: files else g :: insert_name file rest
  end.

Definition all_todos (d : list (string * FileText)) : list Todo :=
  flat_map (λ file, read_todos file d) (todo_files d).

(** The first file of [files] that holds a record with the id, the index of
    the first such record in it, and the record. *)
Fixpoint locate (id0 : string) (d : list (string * FileText))
  (files : list string) : option (string * nat * Todo) :=
  match files with
  | [] => None
  | file :: rest =>
      match findIndex id0 (read_todos file d) with
      | Some (index, todo) => Some (file, index, todo)
      | None => locate id0 d rest
      end
  end.

(** Two worlds that differ at most in what was logged. *)
Definition quiet (w w' : World) : Prop :=
  dir w' = dir w ∧ random w' = random w ∧ random_calls w' = random_calls w
  ∧ clock w' = clock w ∧ clock_calls w' = clock_calls w.

(** The entries of a directory have distinct names. *)
Definition well_formed (w : World) : Prop := NoDup (map fst (dir w)).

(** Drawing random numbers leaves the rest of the world alone. *)
Definition only_draws (w w' : World) : Prop :=
  dir w' = dir w ∧ console w' = console w ∧ fs_calls w' = fs_calls w
  ∧ random w' = random w ∧ clock w' = clock w ∧ clock_calls w' = clock_calls w.

(** The timestamp the next [new Date().toISOString()] returns. *)
Definition now (w : World) : string := clock w (clock_calls w).

(** The world [w'] is [w] after [todos] was written to [file] and [ticks]
    timestamps were taken. *)
Definition wrote (file : string) (todos : list Todo) (ticks : nat)
  (w w' : World) : Prop :=
  dir w' = store_file file (Json todos) (dir w)
  ∧ random w' = random w ∧ random_calls w' = random_calls w
  ∧ clock w' = clock w ∧ clock_calls w' = ticks + clock_calls w.

(** The identifier that a [createTodo] started in [w] on the file [file]
    draws, and what it leaves behind: the new record is appended to the
    records read from the file, and two timestamps are taken. *)
Definition drawn_id (file : string) (w : World) : string :=
  result generateUUID (after (readTodosFile file) w).

Definition created_in (file : string) (newTodo : Todo) (w w' : World) : Prop :=
  dir w' = store_file file (Json (read_todos file (dir w) ++ [newTodo])) (dir w)
  ∧ random w' = random w ∧ clock w' = clock w
  ∧ clock_calls w' = S (S (clock_calls w)).

(** What both [createTodo]s come to once the file is read and the
    identifier drawn, [make] giving the new record from its two timestamps,
    [todos] being the records read and [w] the world reached. *)
Definition create_tail_run (file : string) (make : string → string → Todo)
  (todos : list Todo) (w : World) : Todo * World :=
  let newTodo := make (clock w (clock_calls w)) (clock w (S (clock_calls w))) in
  let text := Json (todos ++ [newTodo]) in
  (newTodo,
   mkWorld (store_file file text (dir w)) (console w)
           (fs_calls w ++ [WriteFile file text])
           (random w) (random_calls w) (clock w) (S (S (clock_calls w)))).

(** What [deleteTodo] answers and leaves behind when the id is located in
    [file] at [index], where [todo] is. *)
Definition delete_outcome (id0 : string) (hardDelete : bool)
  (file : string) (index : nat) (todo : Todo) (w w' : World)
  (outcome : option DeleteResult) : Prop :=
  if hardDelete then
    outcome = Some (Deleted id0 true)
    ∧ wrote file (delete index (read_todos file (dir w))) 0 w w'
  else
    outcome = Some (Cancelled (cancel todo (now w)))
    ∧ wrote file (<[index := cancel todo (now w)]> (read_todos file (dir w)))
            1 w w'.

(** A computation keeps a property of the world. *)
Definition preserves {A} (P : World → Prop) (m : M A) : Prop :=
  ∀ w, P w → P (after m w).

(** ** The words of the specification *)

Definition is_lower_hex (c : ascii) : bool :=
  in_range "0" "9" c || in_range "a" "f" c.

(** What the character at index [i] of a version-4 UUID must be. *)
Definition uuid_v4_char (i : nat) (c : ascii) : bool :=
  if (i =? 8) || (i =? 13) || (i =? 18) || (i =? 23) then Ascii.eqb c "-"
  else if i =? 14 then Ascii.eqb c "4"
  else if i =? 19 then
    Ascii.eqb c "8" || Ascii.eqb c "9" || Ascii.eqb c "a" || Ascii.eqb c "b"
  else is_lower_hex c.

Definition uuid_v4 (s : string) : Prop :=
  String.length s = 36
  ∧ ∀ i c, String.get i s = Some c → uuid_v4_char i c = true.

(** [Math.random()] returns a number of the interval [0, 1). *)
Definition random_in_unit_interval (w : World) : Prop :=
  ∀ n, (0 <= random w n)%Q ∧ (random w n < 1)%Q.

(** What [replace] may put in the place of a character of the template. *)
Definition digit_for (t c : ascii) : bool :=
  if Ascii.eqb t "x" then is_lower_hex c
  else if Ascii.eqb t "y" then
    Ascii.eqb c "8" || Ascii.eqb c "9" || Ascii.eqb c "a" || Ascii.eqb c "b"
  else Ascii.eqb c t.

Fixpoint instance_of (template s : string) : bool :=
  match template, s with
  | EmptyString, EmptyString => true
  | String t template', String c s' => digit_for t c && instance_of template' s'
  | _, _ => false
  end.

(** The characters of the class [A-Za-z0-9], written out. *)
Definition letters_and_digits : list ascii :=
  list_ascii_of_string
    "ABCDEFGHIJKLMNOPQRSTUVWXYZabcdefghijklmnopqrstuvwxyz0123456789".

(** A string with every character outside [keep] replaced by '-'. *)
Fixpoint replace_outside (keep : list ascii) (s : string) : string :=
  match s with
  | EmptyString => EmptyString
  | String c rest =>
      String (if bool_decide (c ∈ keep) then c else "-"%char)
             (replace_outside keep rest)
  end.

(** [shardFor], as the specification words it: the default shard id when
    [project] is absent or empty, otherwise [project] with every character
    outside [A-Za-z0-9] replaced by '-'. *)
Definition shardFor (project0 : option string) : string :=
  match project0 with
  | None => "default"
  | Some p =>
      if decide (p = "") then "default"
      else replace_outside letters_and_digits p
  end.

(** No call of the sequence draws an identifier that a record of the store
    has when the call is made. *)
Fixpoint no_collision (inputs : list TodoData) (w : World) : Prop :=
  match inputs with
  | [] => True
  | todoData :: rest =>
      (id (result (createTodo todoData) w) ∉ map id (result getAllTodos w))
      ∧ no_collision rest (after (createTodo todoData) w)
  end.

(** A call is refused: it answers with a failure and leaves the todos
    directory as it was. *)
Definition refused (call : M ToolResponse) (w : World) : Prop :=
  (∃ error, result call w = Failed error) ∧ dir (after call w) = dir w.

(** Case-insensitive substring containment: some part of [text] is
    [keyword] up to the case of its letters. *)
Definition contains_ignoring_case (text keyword : string) : Prop :=
  ∃ before middle rest,
    text = before +:+ middle +:+ rest
    ∧ toLowerCase middle = toLowerCase keyword.

(** A record satisfies the criteria: each criterion that is supplied holds,
    [status], [priority], [project] and [conversation] by equality, [keyword]
    by containment in [content]; a criterion that is absent asks nothing. *)
Definition satisfies (criteria : TodoFilters) (todo : Todo) : Prop :=
  (∀ v, f_status criteria = Some v → status todo = v)
  ∧ (∀ v, f_priority criteria = Some v → priority todo = v)
  ∧ (∀ v, f_project criteria = Some v → project todo = Some v)
  ∧ (∀ v, f_conversation criteria = Some v → conversation todo = Some v)
  ∧ (∀ v, f_keyword criteria = Some v →
       contains_ignoring_case (content todo) v).

(** The criteria with those that are the empty string taken as absent. *)
Definition non_empty (v : option string) : option string :=
  if truthy v then v else None.

Definition without_empty (criteria : TodoFilters) : TodoFilters :=
  mkFilters (non_empty (f_status criteria)) (non_empty (f_priority criteria))
            (non_empty (f_project criteria))
            (non_empty (f_conversation criteria))
            (non_empty (f_keyword criteria)).

(** Among [calls] there is a [fs.writeFile] on the file itself. *)
Definition written_in_place (file : string) (calls : list FsCall) : Prop :=
  ∃ data, WriteFile file data ∈ calls.

(** Among [calls], the file is published by renaming a temporary file over
    it, and it is never written in place. *)
Definition published_by_rename (file : string) (calls : list FsCall) : Prop :=
  (∃ temporary, temporary ≠ file ∧ Rename temporary file ∈ calls)
  ∧ ¬ written_in_place file calls.

Definition is_rename (call : FsCall) : bool :=
  match call with
  | Rename _ _ => true
  | _ => false
  end.

(** No call to [fs.rename] was made. *)
Definition never_renamed (w : World) : Prop :=
  Forall (λ call, is_rename call = false) (fs_calls w).

(** ** What a run leaves behind *)

(** Every run of a computation relates the world it starts in to the world
    it leaves. *)
Definition keeps {A} (R : World → World → Prop) (m : M A) : Prop :=
  ∀ w, R w (after m w).

Definition is_write (call : FsCall) : bool :=
  match call with
  | WriteFile _ _ | Rename _ _ => true
  | _ => false
  end.

(** Between [w] and [w'] the store was only read: the directory, the
    random numbers and the clock are as they were, and the calls made to
    [fs] in between write nothing. *)
Definition read_only (w w' : World) : Prop :=
  quiet w w'
  ∧ ∃ calls, fs_calls w' = fs_calls w ++ calls
             ∧ Forall (λ call, is_write call = false) calls.

(** Every file of the directory holds an array of records: no file is
    text on which [JSON.parse] throws. *)
Definition holds_records (w : World) : Prop :=
  ∀ file, lookup_file file (dir w) ≠ Some Garbage.

(** Starting from files that hold arrays of records, nothing was logged
    and the files still hold arrays of records. *)
Definition silent (w w' : World) : Prop :=
  holds_records w → console w' = console w ∧ holds_records w'.

(** A call of one of the six tools that [initServer] registers (lines
    216-529), with the handler of either source for [createTask]. *)
Inductive tool_call : M ToolResponse → Prop :=
  | call_getAllTasks : tool_call getAllTasks
  | call_getTask id0 : tool_call (getTask id0)
  | call_createTask content0 status0 priority0 project0 conversation0 :
      tool_call (createTask content0 status0 priority0 project0 conversation0)
  | call_createTask_ts content0 status0 priority0 project0 conversation0 :
      tool_call (createTask_ts content0 status0 priority0 project0
                               conversation0)
  | call_updateTask id0 content0 status0 priority0 project0 conversation0 :
      tool_call (updateTask id0 content0 status0 priority0 project0
                            conversation0)
  | call_deleteTask id0 hardDelete : tool_call (deleteTask id0 hardDelete)
  | call_filterTasks filters : tool_call (filterTasks filters).

(** The world [w] in which [file] holds [text], put there by some other
    program. *)
Definition with_file (file : string) (text : FileText) (w : World) : World :=
  mkWorld (store_file file text (dir w)) (console w) (fs_calls w)
          (random w) (random_calls w) (clock w) (clock_calls w).

(** The records of a list that have the id, and those that do not. *)
Definition with_id (id0 : string) (todos : list Todo) : list Todo :=
  filter (λ todo, id todo = id0) todos.

Definition without_id (id0 : string) (todos : list Todo) : list Todo :=
  filter (λ todo, id todo ≠ id0) todos.

(** Between [w] and [w'] nothing happened to the records whose id is not
    [id0]: the store lists the same ones in the same order, and
    [getTodoById] answers the same for every other id. *)
Definition others_untouched (id0 : string) (w w' : World) : Prop :=
  without_id id0 (result getAllTodos w') = without_id id0 (result getAllTodos w)
  ∧ ∀ id', id' ≠ id0 →
      result (getTodoById id') w' = result (getTodoById id') w.

(** ** The digits of an identifier *)

(** [Math.random() * 16 | 0] for the [k]-th call of [Math.random] from now
    on. *)
Definition nibble (w : World) (k : nat) : Z :=
  ToInt32 (random w (k + random_calls w) * 16).

(** The number whose digit [generateUUID] puts in the place of [c]. *)
Definition digit_value (c : ascii) (r : Z) : Z :=
  if Ascii.eqb c "x" then r else Z.lor (Z.land r 3) 8.

(** The characters of a template that [replace(/[xy]/g, ...)] replaces, in
    order. *)
Fixpoint placeholders (template : string) : list ascii :=
  match template with
  | EmptyString => []
  | String c rest =>
      if Ascii.eqb c "x" || Ascii.eqb c "y" then c :: placeholders rest
      else placeholders rest
  end.

(** A file name without directories: a stem that is not empty, made of
    the letters and digits of [A-Za-z0-9] and of hyphens, then [.json]. *)
Definition plain_json_name (file : string) : Prop :=
  ∃ stem, file = stem +:+ ".json"
          ∧ stem ≠ ""
          ∧ Forall (λ c, c ∈ letters_and_digits ∨ c = "-"%char)
                   (list_ascii_of_string stem).

(** * Properties *)

(** ** The monad *)

(** Running [let* x := m in k]: [k] is run on the result of [m], in the
    world that [m] leaves. *)
Lemma run_bind {A B} (m : M A) (k : A → M B) w :
  bind m k w = k (result m w) (after m w).
Proof. unfold bind, result, after. by destruct (m w). Qed.

Lemma result_bind {A B} (m : M A) (k : A → M B) w :
  result (bind m k) w = result (k (result m w)) (after m w).
Proof. unfold result at 1. by rewrite run_bind. Qed.

Lemma after_bind {A B} (m : M A) (k : A → M B) w :
  after (bind m k) w = after (k (result m w)) (after m w).
Proof. unfold after at 1. by rewrite run_bind. Qed.

Lemma quiet_refl w : quiet w w.
Proof. by repeat split. Qed.

Lemma quiet_trans w1 w2 w3 : quiet w1 w2 → quiet w2 w3 → quiet w1 w3.
Proof. unfold quiet. intros (?&?&?&?&?) (?&?&?&?&?). repeat split; congruence. Qed.

(** ** The directory *)

(** Reading back what was written, and what was not. *)
Lemma lookup_store_file file text other d :
  lookup_file other (store_file file text d)
  = if String.eqb file other then Some text else lookup_file other d.
Proof.
  induction d as [|[name old] d IH]; simpl.
  - destruct (String.eqb_spec file other) as [->|Hne]; [done|].
    reflexivity.
  - destruct (String.eqb_spec name file) as [->|Hname]; simpl.
    + destruct (String.eqb_spec file other); done.
    + destruct (String.eqb_spec name other) as [->|Hother].
      * destruct (String.eqb_spec file other); congruence.
      * apply IH.
Qed.

Lemma lookup_file_Some file d text :
  lookup_file file d = Some text → file ∈ map fst d.
Proof.
  induction d as [|[name old] d IH]; simpl; [done|].
  destruct (String.eqb_spec name file) as [->|Hname].
  - intros _. apply list_elem_of_here.
  - intros H. apply list_elem_of_further, IH, H.
Qed.

(** Writing a file keeps the names that [fs.readdir] lists, a new name
    coming last. *)
Lemma names_store_file file text d :
  map fst (store_file file text d)
  = if bool_decide (file ∈ map fst d) then map fst d else map fst d ++ [file].
Proof.
  induction d as [|[name old] d IH]; cbn [store_file map fst].
  - rewrite bool_decide_eq_false_2; [done|apply not_elem_of_nil].
  - destruct (String.eqb_spec name file) as [->|Hname]; cbn [map fst].
    + rewrite bool_decide_eq_true_2; [done|apply list_elem_of_here].
    + rewrite IH. destruct (decide (file ∈ map fst d)) as [Hin|Hout].
      * rewrite !bool_decide_eq_true_2; [done|by apply list_elem_of_further|done].
      * rewrite !bool_decide_eq_false_2; [done| |done].
        intros [?|?]%elem_of_cons; congruence.
Qed.

Lemma read_todos_store_file file todos other d :
  read_todos other (store_file file (Json todos) d)
  = if String.eqb file other then todos else read_todos other d.
Proof.
  unfold read_todos. rewrite lookup_store_file.
  by destruct (String.eqb file other).
Qed.

Lemma store_file_well_formed file text d :
  NoDup (map fst d) → NoDup (map fst (store_file file text d)).
Proof.
  intros Hd. rewrite names_store_file. case_bool_decide as Hin; [done|].
  apply NoDup_app. split_and!; [done| |apply NoDup_singleton].
  intros x Hx ->%list_elem_of_singleton. done.
Qed.

(** ** The order of names *)

Lemma leb_cons x a y b :
  String.leb (String x a) (String y b)
  = match N.compare (N_of_ascii x) (N_of_ascii y) with
    | Eq => String.leb a b
    | Lt => true
    | Gt => false
    end.
Proof.
  unfold String.leb. cbn [String.compare]. unfold Ascii.compare.
  by destruct (N.compare (N_of_ascii x) (N_of_ascii y)).
Qed.

#[global] Instance name_le_total : Total name_le.
Proof. intros a b. apply String.leb_total. Qed.

#[global] Instance name_le_antisymm : AntiSymm (=) name_le.
Proof. intros a b. apply String.leb_antisym. Qed.

#[global] Instance name_le_trans : Transitive name_le.
Proof.
  unfold name_le. intros a.
  induction a as [|x a IH]; intros [|y b] [|z c]; try done.
  rewrite !leb_cons.
  destruct (N.compare_spec (N_of_ascii x) (N_of_ascii y)) as [Hxy|Hxy|Hxy];
    [| |done];
    (destruct (N.compare_spec (N_of_ascii y) (N_of_ascii z)) as [Hyz|Hyz|Hyz];
     [| |done]);
    destruct (N.compare_spec (N_of_ascii x) (N_of_ascii z)) as [Hxz|Hxz|Hxz];
    try done; try lia.
  apply IH.
Qed.

Lemma sorted_names_Permutation d : sorted_names d ≡ₚ map fst d.
Proof. apply merge_sort_Permutation. Qed.

Lemma sorted_names_sorted d : StronglySorted name_le (sorted_names d).
Proof. apply StronglySorted_merge_sort; apply _. Qed.

Lemma elem_of_sorted_names file d : file ∈ sorted_names d ↔ file ∈ map fst d.
Proof. by rewrite sorted_names_Permutation. Qed.

Lemma insert_name_split file files :
  ∃ l1 l2, files = l1 ++ l2 ∧ insert_name file files = l1 ++ file :: l2.
Proof.
  induction files as [|g rest (l1 & l2 & Hrest & Hinsert)]; [by exists [], []|].
  cbn [insert_name]. destruct (String.leb file g).
  - by exists [], (g :: rest).
  - exists (g :: l1), l2. by rewrite Hinsert, Hrest at 1.
Qed.

Lemma insert_name_Permutation file files :
  insert_name file files ≡ₚ file :: files.
Proof.
  destruct (insert_name_split file files) as (l1 & l2 & -> & ->).
  by rewrite Permutation_middle.
Qed.

Lemma insert_name_least file files :
  Forall (name_le file) files → insert_name file files = file :: files.
Proof.
  destruct files as [|g rest]; [done|]. intros [Hg _]%Forall_cons.
  cbn [insert_name]. by rewrite Hg.
Qed.

Lemma insert_name_sorted file files :
  StronglySorted name_le files →
  StronglySorted name_le (insert_name file files).
Proof.
  induction 1 as [|g rest Hrest IH Hg]; [by repeat constructor|].
  cbn [insert_name]. destruct (String.leb file g) eqn:Hle.
  - constructor; [by constructor|]. constructor; [done|].
    eapply Forall_impl; [exact Hg|]. intros y Hy. by trans g.
  - constructor; [done|]. rewrite insert_name_Permutation.
    constructor; [|done]. destruct (total name_le file g) as [Hfg|]; [|done].
    unfold name_le in Hfg. congruence.
Qed.

(** A file that is written keeps its place in what [fs.readdir] lists; a
    file that is created gets its place in the order of names. *)
Lemma sorted_names_store_file file text d :
  sorted_names (store_file file text d)
  = if bool_decide (file ∈ map fst d) then sorted_names d
    else insert_name file (sorted_names d).
Proof.
  unfold sorted_names at 1. rewrite names_store_file.
  case_bool_decide; [done|].
  apply (StronglySorted_unique name_le).
  - apply StronglySorted_merge_sort; apply _.
  - apply insert_name_sorted, sorted_names_sorted.
  - rewrite merge_sort_Permutation, insert_name_Permutation,
      sorted_names_Permutation.
    by rewrite Permutation_app_comm.
Qed.

Lemma filter_insert_name (P : string → Prop) `{∀ x, Decision (P x)}
  file files :
  StronglySorted name_le files → P file →
  filter P (insert_name file files) = insert_name file (filter P files).
Proof.
  intros Hfiles HP. induction Hfiles as [|g rest Hrest IH Hg]; cbn [insert_name].
  - by rewrite filter_cons_True.
  - destruct (String.leb file g) eqn:Hle.
    + rewrite filter_cons_True by done. symmetry. apply insert_name_least.
      apply Forall_forall. intros y [_ Hy]%list_elem_of_filter.
      apply elem_of_cons in Hy as [->|Hy]; [done|].
      rewrite Forall_forall in Hg. trans g; [done|by apply Hg].
    + rewrite !filter_cons. destruct (decide (P g)); [|exact IH].
      cbn [insert_name]. by rewrite Hle, IH.
Qed.

Lemma filter_insert_name_out (P : string → Prop) `{∀ x, Decision (P x)}
  file files :
  ¬ P file → filter P (insert_name file files) = filter P files.
Proof.
  intros HP. destruct (insert_name_split file files) as (l1 & l2 & -> & ->).
  by rewrite !filter_app, filter_cons_False.
Qed.

(** ** Reading *)

(** [readTodosFile] gives the records of the file, changes no file and
    draws nothing. *)
Lemma readTodosFile_result file w :
  result (readTodosFile file) w = read_todos file (dir w).
Proof.
  unfold readTodosFile, read_todos, result, bind, existsSync, fs_readFile,
    console_error, ret.
  destruct (lookup_file file (dir w)) as [[todos|]|] eqn:Hfile; simpl;
    rewrite ?Hfile; simpl; try done.
Qed.

Lemma readTodosFile_quiet file w : quiet w (after (readTodosFile file) w).
Proof.
  unfold readTodosFile, after, bind, existsSync, fs_readFile, console_error,
    ret, quiet.
  destruct (lookup_file file (dir w)) as [[todos|]|] eqn:Hfile; simpl;
    rewrite ?Hfile; simpl; done.
Qed.

Lemma getTodoFiles_result w : result getTodoFiles w = todo_files (dir w).
Proof. reflexivity. Qed.

Lemma getTodoFiles_quiet w : quiet w (after getTodoFiles w).
Proof. by repeat split. Qed.

(** [getAllTodos] gives the records of the [.json] files, file after file. *)
Lemma getAllTodos_loop_spec files acc w :
  result (getAllTodos_loop files acc) w
  = acc ++ flat_map (λ file, read_todos file (dir w)) files
  ∧ quiet w (after (getAllTodos_loop files acc) w).
Proof.
  revert acc w. induction files as [|file rest IH]; intros acc w.
  - split; [by rewrite app_nil_r|apply quiet_refl].
  - cbn [getAllTodos_loop flat_map]. rewrite result_bind, after_bind.
    pose proof (readTodosFile_quiet file w) as Hq.
    destruct (IH (acc ++ result (readTodosFile file) w)
                 (after (readTodosFile file) w)) as [Hres Hafter].
    split; [|by eapply quiet_trans].
    rewrite Hres, readTodosFile_result. destruct Hq as [-> _].
    by rewrite <- app_assoc.
Qed.

Lemma getAllTodos_result w : result getAllTodos w = all_todos (dir w).
Proof.
  unfold getAllTodos. rewrite result_bind.
  destruct (getAllTodos_loop_spec (result getTodoFiles w) [] (after getTodoFiles w))
    as [-> _].
  reflexivity.
Qed.

Lemma getAllTodos_quiet w : quiet w (after getAllTodos w).
Proof.
  unfold getAllTodos. rewrite after_bind.
  eapply quiet_trans; [apply getTodoFiles_quiet|].
  apply getAllTodos_loop_spec.
Qed.

(** [getTodoById] gives the record that the id locates. *)
Lemma getTodoById_loop_spec id0 files w :
  result (getTodoById_loop id0 files) w = snd <$> locate id0 (dir w) files
  ∧ quiet w (after (getTodoById_loop id0 files) w).
Proof.
  revert w. induction files as [|file rest IH]; intros w.
  - split; [done|apply quiet_refl].
  - cbn [getTodoById_loop locate]. rewrite result_bind, after_bind.
    pose proof (readTodosFile_quiet file w) as Hq.
    rewrite readTodosFile_result.
    destruct (findIndex id0 (read_todos file (dir w))) as [[index todo]|].
    + split; [done|exact Hq].
    + destruct (IH (after (readTodosFile file) w)) as [Hres Hafter].
      split; [|by eapply quiet_trans].
      rewrite Hres. by destruct Hq as [-> _].
Qed.

Lemma getTodoById_result id0 w :
  result (getTodoById id0) w = snd <$> locate id0 (dir w) (todo_files (dir w)).
Proof.
  unfold getTodoById. rewrite result_bind.
  by destruct (getTodoById_loop_spec id0 (result getTodoFiles w)
                 (after getTodoFiles w)) as [-> _].
Qed.

Lemma getTodoById_quiet id0 w : quiet w (after (getTodoById id0) w).
Proof.
  unfold getTodoById. rewrite after_bind.
  eapply quiet_trans; [apply getTodoFiles_quiet|].
  apply getTodoById_loop_spec.
Qed.

(** ** Identifiers *)

(** [Math.random() * 16 | 0] is one of 0, ..., 15. *)
Lemma ToInt32_random x :
  (0 <= x)%Q → (x < 1)%Q → (0 <= ToInt32 (x * 16) < 16)%Z.
Proof.
  destruct x as [n d]. unfold Qle, Qlt, ToInt32. cbn [Qnum Qden Qmult].
  intros Hlo Hhi. rewrite Pos.mul_1_r.
  assert (0 <= n * 16 ÷ Z.pos d < 16)%Z as Ht.
  { rewrite Z.quot_div_nonneg by lia. split.
    - apply Z.div_pos; lia.
    - apply Z.div_lt_upper_bound; lia. }
  rewrite Z.mod_small; lia.
Qed.

Lemma nibble_cases (r : Z) :
  (0 <= r < 16)%Z →
  r ∈ [0; 1; 2; 3; 4; 5; 6; 7; 8; 9; 10; 11; 12; 13; 14; 15]%Z.
Proof.
  intros Hr. rewrite !elem_of_cons, elem_of_nil. lia.
Qed.

(** The function given to [replace] returns one character: a hexadecimal
    digit for [x], one of 8, 9, a, b for [y]. *)
Lemma generateUUID_digit_spec c w :
  random_in_unit_interval w →
  Ascii.eqb c "x" || Ascii.eqb c "y" = true →
  ∃ h, result (generateUUID_digit c) w = String h EmptyString
       ∧ digit_for c h = true.
Proof.
  intros Hrand Hc. unfold generateUUID_digit. rewrite result_bind.
  change (result Math_random w) with (random w (random_calls w)).
  destruct (Hrand (random_calls w)) as [Hlo Hhi].
  pose proof (nibble_cases _ (ToInt32_random _ Hlo Hhi)) as Hr.
  set (r := ToInt32 (random w (random_calls w) * 16)) in *. clearbody r.
  unfold digit_for.
  destruct (Ascii.eqb c "x") eqn:Hx.
  - repeat (apply elem_of_cons in Hr as [->|Hr]; [by eexists|]).
    by apply elem_of_nil in Hr.
  - simpl in Hc. rewrite Hc.
    repeat (apply elem_of_cons in Hr as [->|Hr]; [by eexists|]).
    by apply elem_of_nil in Hr.
Qed.

Lemma generateUUID_digit_after c w :
  after (generateUUID_digit c) w
  = mkWorld (dir w) (console w) (fs_calls w) (random w) (S (random_calls w))
            (clock w) (clock_calls w).
Proof. reflexivity. Qed.

Lemma replace_xy_after template w :
  only_draws w (after (replace_xy generateUUID_digit template) w).
Proof.
  revert w. induction template as [|c rest IH]; intros w; [by repeat split|].
  cbn [replace_xy]. destruct (Ascii.eqb c "x" || Ascii.eqb c "y").
  - rewrite !after_bind. cbn [ret after snd].
    destruct (IH (after (generateUUID_digit c) w)) as (?&?&?&?&?&?).
    rewrite generateUUID_digit_after in *. simpl in *. by repeat split.
  - rewrite !after_bind. cbn [ret after snd]. apply IH.
Qed.

(** The result of [replace] follows the template character by character. *)
Lemma replace_xy_instance template w :
  random_in_unit_interval w →
  instance_of template (result (replace_xy generateUUID_digit template) w) = true.
Proof.
  revert w. induction template as [|c rest IH]; intros w Hrand; [done|].
  cbn [replace_xy]. destruct (Ascii.eqb c "x" || Ascii.eqb c "y") eqn:Hc.
  - rewrite !result_bind. cbn [ret result fst].
    destruct (generateUUID_digit_spec c w Hrand Hc) as (h & -> & Hh).
    change (instance_of (String c rest) (String h EmptyString +:+ ?t))
      with (digit_for c h && instance_of rest t).
    rewrite Hh. apply IH.
    intros n. rewrite generateUUID_digit_after. apply Hrand.
  - rewrite !result_bind. cbn [ret result fst instance_of].
    apply orb_false_elim in Hc as [Hx Hy].
    unfold digit_for. rewrite Hx, Hy, Ascii.eqb_refl. by apply IH.
Qed.

Lemma uuid_template_instance s :
  instance_of uuid_template s = true → uuid_v4 s.
Proof.
  unfold uuid_template. intros H.
  do 36 (destruct s as [|? s];
    [cbn [instance_of] in H; repeat (apply andb_prop in H as [_ H]);
     discriminate H|]).
  destruct s as [|? s];
    [|cbn [instance_of] in H; repeat (apply andb_prop in H as [_ H]);
      discriminate H].
  cbn [instance_of] in H.
  repeat (apply andb_prop in H as [? H]).
  split; [reflexivity|].
  intros i c Hget.
  do 36 (destruct i as [|i];
    [injection Hget as <-; unfold uuid_v4_char; cbn [Nat.eqb orb];
     assumption|]).
  discriminate Hget.
Qed.

Lemma generateUUID_after w : only_draws w (after generateUUID w).
Proof. apply replace_xy_after. Qed.

Lemma generateUUID_v4 w :
  random_in_unit_interval w → uuid_v4 (result generateUUID w).
Proof. intros Hrand. by apply uuid_template_instance, replace_xy_instance. Qed.

(** ** Creating *)

(** The run of [createTodo], in both sources, from the reading of the
    clock on. *)
Lemma create_tail (file : string) (make : string → string → Todo)
  (todos : list Todo) w :
  (let* created := Date_toISOString in
   let* updated := Date_toISOString in
   let* _ := writeTodosFile file (todos ++ [make created updated]) in
   ret (make created updated)) w
  = create_tail_run file make todos w.
Proof. reflexivity. Qed.

Lemma createTodo_run todoData w :
  createTodo todoData w
  = create_tail_run (todosFileFor (data_project todoData))
      (mkTodo (drawn_id (todosFileFor (data_project todoData)) w)
              (data_content todoData) (data_status todoData)
              (data_priority todoData) (data_project todoData)
              (data_conversation todoData))
      (result (readTodosFile (todosFileFor (data_project todoData))) w)
      (after generateUUID
         (after (readTodosFile (todosFileFor (data_project todoData))) w)).
Proof.
  unfold createTodo, drawn_id.
  rewrite (run_bind (readTodosFile (todosFileFor (data_project todoData)))).
  rewrite (run_bind generateUUID).
  apply (create_tail _ (mkTodo _ _ _ _ _ _)).
Qed.

Lemma createTodo_ts_run todoData w :
  createTodo_ts todoData w
  = create_tail_run (todosFileFor (p_project todoData))
      (mkTodo (drawn_id (todosFileFor (p_project todoData)) w)
           (or_default (p_content todoData) "")
           (or_default (p_status todoData) "pending")
           (or_default (p_priority todoData) "medium")
           (if truthy (p_project todoData) then p_project todoData else None)
           (if truthy (p_conversation todoData) then p_conversation todoData
            else None))
      (result (readTodosFile (todosFileFor (p_project todoData))) w)
      (after generateUUID
         (after (readTodosFile (todosFileFor (p_project todoData))) w)).
Proof.
  unfold createTodo_ts, drawn_id.
  rewrite (run_bind (readTodosFile (todosFileFor (p_project todoData)))).
  rewrite (run_bind generateUUID).
  apply (create_tail _ (mkTodo _ _ _ _ _ _)).
Qed.

Lemma create_tail_run_spec file make todos w w2 :
  todos = read_todos file (dir w) →
  dir w2 = dir w → random w2 = random w → clock w2 = clock w →
  clock_calls w2 = clock_calls w →
  (create_tail_run file make todos w2).1
  = make (clock w (clock_calls w)) (clock w (S (clock_calls w)))
  ∧ created_in file (create_tail_run file make todos w2).1 w
               (create_tail_run file make todos w2).2.
Proof.
  intros -> Hdir Hrand Hclock Hcalls.
  unfold create_tail_run, created_in. cbn [fst snd dir random clock clock_calls].
  rewrite Hdir, Hrand, Hclock, Hcalls. repeat split.
Qed.

Lemma create_tail_run_after file w :
  let w2 := after generateUUID (after (readTodosFile file) w) in
  result (readTodosFile file) w = read_todos file (dir w)
  ∧ dir w2 = dir w ∧ random w2 = random w ∧ clock w2 = clock w
  ∧ clock_calls w2 = clock_calls w.
Proof.
  intros w2.
  destruct (readTodosFile_quiet file w) as (Hdir&Hrand&_&Hclock&Hcalls).
  destruct (generateUUID_after (after (readTodosFile file) w))
    as (Hdir'&_&_&Hrand'&Hclock'&Hcalls').
  split; [apply readTodosFile_result|].
  split_and!; etrans; eassumption.
Qed.

(** The record that [createTodo] returns, and the world it leaves. *)
Lemma createTodo_result todoData w :
  result (createTodo todoData) w
  = mkTodo (drawn_id (todosFileFor (data_project todoData)) w)
           (data_content todoData) (data_status todoData)
           (data_priority todoData) (data_project todoData)
           (data_conversation todoData)
           (clock w (clock_calls w)) (clock w (S (clock_calls w))).
Proof.
  unfold result. rewrite createTodo_run.
  eapply proj1, create_tail_run_spec; apply create_tail_run_after.
Qed.

Lemma createTodo_ts_result todoData w :
  result (createTodo_ts todoData) w
  = mkTodo (drawn_id (todosFileFor (p_project todoData)) w)
           (or_default (p_content todoData) "")
           (or_default (p_status todoData) "pending")
           (or_default (p_priority todoData) "medium")
           (if truthy (p_project todoData) then p_project todoData else None)
           (if truthy (p_conversation todoData) then p_conversation todoData
            else None)
           (clock w (clock_calls w)) (clock w (S (clock_calls w))).
Proof.
  unfold result. rewrite createTodo_ts_run.
  eapply proj1, create_tail_run_spec; apply create_tail_run_after.
Qed.

Lemma createTodo_after todoData w :
  created_in (todosFileFor (data_project todoData))
             (result (createTodo todoData) w) w
             (after (createTodo todoData) w).
Proof.
  unfold result, after. rewrite createTodo_run.
  eapply proj2, create_tail_run_spec; apply create_tail_run_after.
Qed.

Lemma createTodo_ts_after todoData w :
  created_in (todosFileFor (p_project todoData))
             (result (createTodo_ts todoData) w) w
             (after (createTodo_ts todoData) w).
Proof.
  unfold result, after. rewrite createTodo_ts_run.
  eapply proj2, create_tail_run_spec; apply create_tail_run_after.
Qed.

(** ** Updating and deleting *)

Lemma wrote_quiet file todos ticks w w1 w2 :
  quiet w w1 → wrote file todos ticks w1 w2 → wrote file todos ticks w w2.
Proof.
  unfold quiet, wrote. intros (Hd&Hr&Hrc&Hc&Hcc) (->&->&->&->&->).
  by rewrite Hd, Hr, Hrc, Hc, Hcc.
Qed.


Lemma update_tail file index todos (updatedTodo : string → Todo) w :
  let m := (let* stamp := Date_toISOString in
            let* _ := writeTodosFile file (<[index := updatedTodo stamp]> todos) in
            ret (Some (updatedTodo stamp))) in
  result m w = Some (updatedTodo (now w))
  ∧ wrote file (<[index := updatedTodo (now w)]> todos) 1 w (after m w).
Proof. by repeat split. Qed.

(** [updateTodo] replaces the record that the id locates, where it is, by
    its spread with the updates; when the id locates nothing it writes
    nothing. *)
Lemma updateTodo_loop_spec id0 updates files w :
  match locate id0 (dir w) files with
  | Some (file, index, todo) =>
      result (updateTodo_loop id0 updates files) w
      = Some (spread todo updates (now w))
      ∧ wrote file
          (<[index := spread todo updates (now w)]> (read_todos file (dir w)))
          1 w (after (updateTodo_loop id0 updates files) w)
  | None =>
      result (updateTodo_loop id0 updates files) w = None
      ∧ quiet w (after (updateTodo_loop id0 updates files) w)
  end.
Proof.
  revert w. induction files as [|file rest IH]; intros w.
  - split; [done|apply quiet_refl].
  - cbn [updateTodo_loop locate].
    rewrite (result_bind (readTodosFile file)), (after_bind (readTodosFile file)).
    pose proof (readTodosFile_quiet file w) as Hq.
    rewrite readTodosFile_result.
    destruct (findIndex id0 (read_todos file (dir w))) as [[index todo]|].
    + destruct (update_tail file index (read_todos file (dir w))
                  (spread todo updates) (after (readTodosFile file) w))
        as [Hres Hafter].
      assert (now (after (readTodosFile file) w) = now w) as Hnow.
      { unfold now. destruct Hq as (_&_&_&->&->). done. }
      rewrite Hnow in Hres, Hafter.
      split; [exact Hres|]. eapply wrote_quiet; [exact Hq|exact Hafter].
    + specialize (IH (after (readTodosFile file) w)).
      destruct Hq as (Hd&?&?&?&?). rewrite Hd in IH.
      destruct (locate id0 (dir w) rest) as [[[file' index] todo]|].
      * destruct IH as [Hres Hafter].
        assert (now (after (readTodosFile file) w) = now w) as Hnow.
        { unfold now. congruence. }
        rewrite Hnow in Hres, Hafter.
        split; [exact Hres|].
        eapply wrote_quiet; [|exact Hafter]. by repeat split.
      * destruct IH as [Hres Hafter]. split; [exact Hres|].
        eapply quiet_trans; [|exact Hafter]. by repeat split.
Qed.

Lemma updateTodo_spec id0 updates w :
  match locate id0 (dir w) (todo_files (dir w)) with
  | Some (file, index, todo) =>
      result (updateTodo id0 updates) w = Some (spread todo updates (now w))
      ∧ wrote file
          (<[index := spread todo updates (now w)]> (read_todos file (dir w)))
          1 w (after (updateTodo id0 updates) w)
  | None =>
      result (updateTodo id0 updates) w = None
      ∧ quiet w (after (updateTodo id0 updates) w)
  end.
Proof.
  unfold updateTodo.
  rewrite (result_bind getTodoFiles), (after_bind getTodoFiles).
  exact (updateTodo_loop_spec id0 updates (todo_files (dir w))
           (after getTodoFiles w)).
Qed.

Lemma delete_outcome_quiet id0 hardDelete file index todo w w1 w2 outcome :
  quiet w w1 →
  delete_outcome id0 hardDelete file index todo w1 w2 outcome →
  delete_outcome id0 hardDelete file index todo w w2 outcome.
Proof.
  intros Hq. pose proof Hq as (Hd&_&_&Hc&Hcc).
  unfold delete_outcome, now. rewrite Hd, Hc, Hcc.
  destruct hardDelete; intros [? ?]; eauto using wrote_quiet.
Qed.

(** [deleteTodo] takes out, or cancels in its place, the record that the id
    locates; when the id locates nothing it writes nothing. *)
Lemma deleteTodo_loop_spec id0 hardDelete files w :
  match locate id0 (dir w) files with
  | Some (file, index, todo) =>
      delete_outcome id0 hardDelete file index todo w
        (after (deleteTodo_loop id0 hardDelete files) w)
        (result (deleteTodo_loop id0 hardDelete files) w)
  | None =>
      result (deleteTodo_loop id0 hardDelete files) w = None
      ∧ quiet w (after (deleteTodo_loop id0 hardDelete files) w)
  end.
Proof.
  revert w. induction files as [|file rest IH]; intros w.
  - split; [done|apply quiet_refl].
  - cbn [deleteTodo_loop locate].
    rewrite (result_bind (readTodosFile file)), (after_bind (readTodosFile file)).
    pose proof (readTodosFile_quiet file w) as Hq.
    rewrite readTodosFile_result.
    destruct (findIndex id0 (read_todos file (dir w))) as [[index todo]|].
    + eapply delete_outcome_quiet; [exact Hq|].
      pose proof Hq as (Hd&_). unfold delete_outcome. rewrite Hd.
      destruct hardDelete; by repeat split.
    + specialize (IH (after (readTodosFile file) w)).
      pose proof Hq as (Hd&_). rewrite Hd in IH.
      destruct (locate id0 (dir w) rest) as [[[file' index] todo]|].
      * by eapply delete_outcome_quiet.
      * destruct IH as [Hres Hafter]. split; [exact Hres|].
        by eapply quiet_trans.
Qed.

Lemma deleteTodo_spec id0 hardDelete w :
  match locate id0 (dir w) (todo_files (dir w)) with
  | Some (file, index, todo) =>
      delete_outcome id0 hardDelete file index todo w
        (after (deleteTodo id0 hardDelete) w)
        (result (deleteTodo id0 hardDelete) w)
  | None =>
      result (deleteTodo id0 hardDelete) w = None
      ∧ quiet w (after (deleteTodo id0 hardDelete) w)
  end.
Proof.
  unfold deleteTodo.
  rewrite (result_bind getTodoFiles), (after_bind getTodoFiles).
  exact (deleteTodo_loop_spec id0 hardDelete (todo_files (dir w))
           (after getTodoFiles w)).
Qed.

(** ** Locating a record *)

Lemma app_singleton_middle {A} (a b c d : list A) (x y : A) :
  a ++ b ++ x :: c ++ d = [y] → a = [] ∧ b = [] ∧ x = y ∧ c = [] ∧ d = [].
Proof.
  destruct a as [|? a]; [|destruct a, b; discriminate].
  destruct b as [|? b]; [|destruct b; discriminate].
  destruct c; [|discriminate]. destruct d; [|discriminate].
  by intros [= ->].
Qed.

Section locate.

Context (id0 : string).

Lemma findIndex_Some todos index todo :
  findIndex id0 todos = Some (index, todo) →
  todos !! index = Some todo ∧ id todo = id0.
Proof. unfold findIndex. rewrite list_find_Some. by intros (?&?&_). Qed.

Lemma findIndex_None todos :
  findIndex id0 todos = None ↔ Forall (λ todo, id todo ≠ id0) todos.
Proof. unfold findIndex. apply list_find_None. Qed.

Lemma findIndex_fresh todos :
  id0 ∉ map id todos → findIndex id0 todos = None.
Proof.
  intros Hfresh. apply findIndex_None, Forall_forall. intros todo Hin <-.
  apply Hfresh, list_elem_of_In, in_map, list_elem_of_In, Hin.
Qed.

Lemma locate_Some d files file index todo :
  locate id0 d files = Some (file, index, todo) →
  file ∈ files ∧ findIndex id0 (read_todos file d) = Some (index, todo).
Proof.
  induction files as [|g rest IH]; cbn [locate]; [done|].
  destruct (findIndex id0 (read_todos g d)) as [[i t]|] eqn:Hg.
  - intros [= -> -> ->]. split; [apply list_elem_of_here|done].
  - intros [Hin ?]%IH. split; [by apply list_elem_of_further|done].
Qed.

Lemma locate_None d files :
  locate id0 d files = None
  ↔ ∀ file, file ∈ files → findIndex id0 (read_todos file d) = None.
Proof.
  induction files as [|g rest IH]; cbn [locate].
  - split; [|done]. intros _ file Hin. by apply elem_of_nil in Hin.
  - destruct (findIndex id0 (read_todos g d)) as [[i t]|] eqn:Hg.
    + split; [done|]. intros H. specialize (H g (list_elem_of_here _ _)).
      congruence.
    + rewrite IH. split.
      * intros H file [->|Hin]%elem_of_cons; auto.
      * intros H file Hin. apply H. by apply list_elem_of_further.
Qed.

(** The one file that holds the id is where [locate] ends. *)
Lemma locate_sole d files file index todo :
  file ∈ files →
  findIndex id0 (read_todos file d) = Some (index, todo) →
  (∀ g, g ∈ files → g ≠ file → findIndex id0 (read_todos g d) = None) →
  locate id0 d files = Some (file, index, todo).
Proof.
  intros Hin Hfile Hothers.
  induction files as [|g rest IH]; [by apply elem_of_nil in Hin|].
  cbn [locate]. destruct (decide (g = file)) as [->|Hne].
  - by rewrite Hfile.
  - rewrite (Hothers g (list_elem_of_here _ _) Hne).
    apply elem_of_cons in Hin as [->|Hin]; [done|].
    apply IH; [done|]. intros g' Hg'. apply Hothers.
    by apply list_elem_of_further.
Qed.

(** Rewriting the file where the id was found: if the id is still found
    in the new text, it is found there. *)
Lemma locate_store_file d files file index todo todos' index' todo' :
  locate id0 d files = Some (file, index, todo) →
  findIndex id0 todos' = Some (index', todo') →
  locate id0 (store_file file (Json todos') d) files
  = Some (file, index', todo').
Proof.
  intros Hloc Hnew.
  induction files as [|g rest IH]; cbn [locate] in *; [done|].
  rewrite read_todos_store_file.
  destruct (findIndex id0 (read_todos g d)) as [[i t]|] eqn:Hg.
  - injection Hloc as -> -> ->. by rewrite String.eqb_refl, Hnew.
  - destruct (String.eqb_spec file g) as [->|Hne].
    + apply locate_Some in Hloc as [_ Hloc]. congruence.
    + rewrite Hg. by apply IH.
Qed.

Lemma filter_nil_Forall (todos : list Todo) :
  filter (λ todo : Todo, id todo = id0) todos = [] → Forall (λ todo, id todo ≠ id0) todos.
Proof.
  intros Hnil. apply Forall_forall. intros todo Hin Hid.
  by apply (filter_nil_not_elem_of (λ todo : Todo, id todo = id0) todos todo).
Qed.

Lemma filter_flat_map_nil {A} (h : A → list Todo) l g :
  filter (λ todo : Todo, id todo = id0) (flat_map h l) = [] → g ∈ l →
  Forall (λ todo, id todo ≠ id0) (h g).
Proof.
  intros Hnil Hin. apply Forall_forall. intros todo Htodo Hid.
  apply (filter_nil_not_elem_of (λ todo : Todo, id todo = id0) _ todo Hnil Hid).
  apply list_elem_of_In, in_flat_map. exists g.
  split; by apply list_elem_of_In.
Qed.

(** When one record only has the id, it is the one found, and nothing
    else has the id: not the rest of its file, not the other files. *)
Lemma sole_holder {A} (h : A → list Todo) l f index todo only :
  filter (λ todo : Todo, id todo = id0) (flat_map h l) = [only] →
  f ∈ l →
  findIndex id0 (h f) = Some (index, todo) →
  todo = only
  ∧ Forall (λ t, id t ≠ id0) (delete index (h f))
  ∧ ∀ g, g ∈ l → g ≠ f → Forall (λ t, id t ≠ id0) (h g).
Proof.
  intros Hone (l1 & l2 & ->)%list_elem_of_split [Hlook Hid]%findIndex_Some.
  rewrite flat_map_app in Hone. cbn [flat_map] in Hone.
  rewrite <- (take_drop_middle (h f) index todo Hlook) in Hone.
  rewrite !filter_app, filter_cons_True, <- !app_assoc in Hone by done.
  cbn [app] in Hone.
  assert (filter (λ todo : Todo, id todo = id0) (flat_map h l1) = []
          ∧ filter (λ todo : Todo, id todo = id0) (take index (h f)) = []
          ∧ todo = only
          ∧ filter (λ todo : Todo, id todo = id0) (drop (S index) (h f)) = []
          ∧ filter (λ todo : Todo, id todo = id0) (flat_map h l2) = []) as (H1 & H2 & -> & H3 & H4).
  { by apply app_singleton_middle. }
  split; [done|]. split.
  - rewrite delete_take_drop. apply Forall_app. split; by apply filter_nil_Forall.
  - intros g [Hg|[->|Hg]%elem_of_cons]%elem_of_app Hne; [|done|].
    + by apply (filter_flat_map_nil h l1).
    + by apply (filter_flat_map_nil h l2).
Qed.

End locate.

(** ** Where a new record goes *)

Lemma endsWith_app prefix suffix : endsWith (prefix +:+ suffix) suffix = true.
Proof.
  induction prefix as [|c prefix IH].
  - change (endsWith suffix suffix = true).
    destruct suffix as [|c suffix]; [reflexivity|].
    cbn [endsWith]. by rewrite String.eqb_refl.
  - change (String.eqb (String c (prefix +:+ suffix)) suffix
            || endsWith (prefix +:+ suffix) suffix = true).
    rewrite IH. apply orb_true_r.
Qed.

Lemma todosFileFor_json project0 : endsWith (todosFileFor project0) ".json" = true.
Proof.
  unfold todosFileFor. destruct project0 as [p|]; [|reflexivity].
  destruct (truthy (Some p)); [apply endsWith_app|reflexivity].
Qed.

Lemma todo_files_store_file file text d :
  endsWith file ".json" = true →
  todo_files (store_file file text d)
  = if bool_decide (file ∈ map fst d) then todo_files d
    else insert_name file (todo_files d).
Proof.
  intros Hjson. unfold todo_files. rewrite sorted_names_store_file.
  case_bool_decide; [done|].
  apply filter_insert_name; [apply sorted_names_sorted|by rewrite Hjson].
Qed.

Lemma todo_files_NoDup d : NoDup (map fst d) → NoDup (todo_files d).
Proof.
  intros Hd. apply NoDup_filter. by rewrite sorted_names_Permutation.
Qed.

Lemma todo_files_json file d :
  file ∈ todo_files d ↔ file ∈ map fst d ∧ endsWith file ".json" = true.
Proof.
  unfold todo_files.
  rewrite list_elem_of_filter, Is_true_true, elem_of_sorted_names. tauto.
Qed.

Lemma read_todos_missing file d : file ∉ map fst d → read_todos file d = [].
Proof.
  intros Hout. unfold read_todos.
  destruct (lookup_file file d) as [text|] eqn:Hfile; [|done].
  by apply lookup_file_Some in Hfile.
Qed.

Lemma read_todos_all file d todo :
  endsWith file ".json" = true →
  todo ∈ read_todos file d → todo ∈ all_todos d.
Proof.
  intros Hjson Hin. apply list_elem_of_In, in_flat_map. exists file.
  split; apply list_elem_of_In; [|done].
  apply todo_files_json. split; [|done].
  destruct (decide (file ∈ map fst d)) as [|Hout]; [done|].
  rewrite (read_todos_missing _ _ Hout) in Hin. by apply elem_of_nil in Hin.
Qed.

(** The file a record was appended to is listed afterwards. *)
Lemma todo_files_appended file text d :
  endsWith file ".json" = true → file ∈ todo_files (store_file file text d).
Proof.
  intros Hjson. rewrite todo_files_store_file by done. case_bool_decide.
  - by apply todo_files_json.
  - rewrite insert_name_Permutation. apply list_elem_of_here.
Qed.

(** The files listed after a write were listed before, the written one
    apart. *)
Lemma todo_files_before file text d g :
  endsWith file ".json" = true →
  g ∈ todo_files (store_file file text d) → g ≠ file → g ∈ todo_files d.
Proof.
  intros Hjson. rewrite todo_files_store_file by done.
  case_bool_decide; [done|]. rewrite insert_name_Permutation.
  intros [?|?]%elem_of_cons; done.
Qed.

(** A record appended under an id that no record has is the one that the
    id locates. *)
Lemma locate_appended file newTodo d :
  endsWith file ".json" = true →
  id newTodo ∉ map id (all_todos d) →
  let d' := store_file file (Json (read_todos file d ++ [newTodo])) d in
  snd <$> locate (id newTodo) d' (todo_files d') = Some newTodo.
Proof.
  intros Hjson Hfresh d'.
  assert (∀ g, endsWith g ".json" = true →
               findIndex (id newTodo) (read_todos g d) = None) as Hnone.
  { intros g Hg. apply findIndex_fresh. intros Hin. apply Hfresh.
    apply list_elem_of_In, in_map_iff in Hin as (todo & Hid & Hin).
    rewrite <- Hid. apply list_elem_of_In, in_map, list_elem_of_In.
    eapply read_todos_all; [exact Hg|]. by apply list_elem_of_In. }
  rewrite (locate_sole (id newTodo) d' (todo_files d') file
             (length (read_todos file d)) newTodo); [done| | |].
  - by apply todo_files_appended.
  - unfold d'. rewrite read_todos_store_file, String.eqb_refl.
    unfold findIndex. rewrite list_find_app_r by (by apply Hnone).
    cbn. rewrite decide_True by done. cbn. do 3 f_equal. 
  - intros g Hg Hne. unfold d'. rewrite read_todos_store_file.
    destruct (String.eqb_spec file g) as [->|_]; [done|].
    apply Hnone. eapply todo_files_json, todo_files_before; done.
Qed.

(** ** A store to try things on *)

Lemma example_random_in_unit_interval : random_in_unit_interval example_world.
Proof.
  intros n. cbn [example_world fresh_world random]. unfold example_random.
  pose proof (Nat.mod_upper_bound n 16). unfold Qle, Qlt. cbn [Qnum Qden]. lia.
Qed.

(** The numbers of the stuck store are numbers that [Math.random] may
    return. *)
Lemma stuck_random_in_unit_interval : random_in_unit_interval stuck_world.
Proof. intros n. split; [discriminate|reflexivity]. Qed.

(** ** Shards *)

(** The character class of the source is [A-Za-z0-9]. *)
Lemma is_alnum_letters_and_digits c :
  is_alnum c = bool_decide (c ∈ letters_and_digits).
Proof. destruct c as [[] [] [] [] [] [] [] []]; by vm_compute. Qed.

Lemma sanitize_replace_outside p :
  sanitize p = replace_outside letters_and_digits p.
Proof.
  induction p as [|c p IH]; [done|].
  cbn [sanitize replace_outside]. by rewrite IH, is_alnum_letters_and_digits.
Qed.

(** The file of a project is the shard of the specification, with the
    extension [.json]. *)
Lemma todosFileFor_shardFor project0 :
  todosFileFor project0 = shardFor project0 +:+ ".json".
Proof.
  unfold todosFileFor, shardFor, truthy. destruct project0 as [p|]; [|done].
  destruct (String.eqb_spec p "") as [->|Hp]; [done|].
  cbn [negb]. by rewrite decide_False, sanitize_replace_outside.
Qed.

Lemma replace_outside_get keep p i :
  String.get i (replace_outside keep p)
  = (λ c, if bool_decide (c ∈ keep) then c else "-"%char) <$> String.get i p.
Proof.
  revert i. induction p as [|c p IH]; intros i; [done|].
  destruct i as [|i]; [done|]. cbn [replace_outside String.get]. apply IH.
Qed.

Lemma replace_outside_length keep p :
  String.length (replace_outside keep p) = String.length p.
Proof. induction p as [|c p IH]; [done|]. cbn. by rewrite IH. Qed.

Lemma created_in_appends file newTodo w w' :
  created_in file newTodo w w' →
  result (readTodosFile file) w'
  = result (readTodosFile file) w ++ [newTodo].
Proof.
  intros (Hdir&_). rewrite !readTodosFile_result, Hdir.
  by rewrite read_todos_store_file, String.eqb_refl.
Qed.

(** ** The [createTask] tool *)

Lemma createTask_run content0 status0 priority0 project0 conversation0 w :
  let todoData :=
    mkData content0 (default "pending" status0) (default "medium" priority0)
           project0 conversation0 in
  result (createTask content0 status0 priority0 project0 conversation0) w
  = Task (result (createTodo todoData) w)
  ∧ after (createTask content0 status0 priority0 project0 conversation0) w
    = after (createTodo todoData) w.
Proof.
  intros todoData. unfold createTask. fold todoData.
  by rewrite (result_bind (createTodo todoData)),
             (after_bind (createTodo todoData)).
Qed.

Lemma createTask_ts_run content0 status0 priority0 project0 conversation0 w :
  let todoData :=
    mkPartial None (Some content0) (Some (default "pending" status0))
              (Some (default "medium" priority0)) project0 conversation0
              None None in
  result (createTask_ts content0 status0 priority0 project0 conversation0) w
  = Task (result (createTodo_ts todoData) w)
  ∧ after (createTask_ts content0 status0 priority0 project0 conversation0) w
    = after (createTodo_ts todoData) w.
Proof.
  intros todoData. unfold createTask_ts. fold todoData.
  by rewrite (result_bind (createTodo_ts todoData)),
             (after_bind (createTodo_ts todoData)).
Qed.

Lemma or_default_Some s : or_default (Some s) "" = s.
Proof. unfold or_default. by destruct (String.eqb_spec s ""). Qed.

(** ** Getting what was created *)

Lemma getTask_run id0 w :
  result (getTask id0) w
  = match result (getTodoById id0) w with
    | Some todo => Task todo
    | None => TaskNotFound id0
    end.
Proof.
  unfold getTask. rewrite (result_bind (getTodoById id0)).
  by destruct (result (getTodoById id0) w).
Qed.

Lemma created_in_found file newTodo w w' :
  endsWith file ".json" = true →
  created_in file newTodo w w' →
  id newTodo ∉ map id (result getAllTodos w) →
  result (getTodoById (id newTodo)) w' = Some newTodo.
Proof.
  intros Hjson (Hdir&_) Hfresh. rewrite getAllTodos_result in Hfresh.
  rewrite getTodoById_result, Hdir. by apply locate_appended.
Qed.

(** ** The records of the store after a create *)

Lemma flat_map_read_todos_others file todos d (files : list string) :
  file ∉ files →
  flat_map (λ g, read_todos g (store_file file (Json todos) d)) files
  = flat_map (λ g, read_todos g d) files.
Proof.
  induction files as [|g files IH]; [done|].
  intros [Hne Hout]%not_elem_of_cons. cbn [flat_map].
  rewrite IH, read_todos_store_file by done.
  destruct (String.eqb_spec file g); congruence.
Qed.

(** Appending a record to a file adds it, and nothing else, to the records
    of the store. *)
Lemma all_todos_appended file newTodo d :
  NoDup (map fst d) → endsWith file ".json" = true →
  all_todos (store_file file (Json (read_todos file d ++ [newTodo])) d)
  ≡ₚ all_todos d ++ [newTodo].
Proof.
  intros Hnames Hjson. unfold all_todos.
  rewrite todo_files_store_file by done. case_bool_decide as Hin.
  - assert (file ∈ todo_files d) as Hfile by by apply todo_files_json.
    assert (NoDup (todo_files d)) as Hfiles by by apply todo_files_NoDup.
    apply list_elem_of_split in Hfile as (l1 & l2 & Hsplit).
    rewrite Hsplit in Hfiles |- *.
    apply NoDup_app in Hfiles as (_ & Hl1 & [Hl2 _]%NoDup_cons).
    rewrite !flat_map_app. cbn [flat_map].
    rewrite !flat_map_read_todos_others, read_todos_store_file, String.eqb_refl;
      [|done|].
    + rewrite <- !app_assoc. apply Permutation_app_head.
      apply Permutation_app_head. apply Permutation_app_comm.
    + intros Hl. by apply (Hl1 file); [|apply list_elem_of_here].
  - destruct (insert_name_split file (todo_files d)) as (l1 & l2 & Hsplit & ->).
    assert (file ∉ todo_files d) as Hout by (by intros [? _]%todo_files_json).
    rewrite Hsplit in Hout |- *. apply not_elem_of_app in Hout as [Hout1 Hout2].
    rewrite !flat_map_app. cbn [flat_map].
    rewrite !flat_map_read_todos_others, read_todos_store_file, String.eqb_refl
      by done.
    rewrite (read_todos_missing _ _ Hin). cbn [app].
    by rewrite <- Permutation_middle, <- Permutation_cons_append.
Qed.

Lemma created_in_all_todos file newTodo w w' :
  well_formed w → endsWith file ".json" = true →
  created_in file newTodo w w' →
  result getAllTodos w' ≡ₚ result getAllTodos w ++ [newTodo]
  ∧ well_formed w'.
Proof.
  unfold well_formed. intros Hw Hjson (Hdir&_).
  rewrite !getAllTodos_result, Hdir. split.
  - by apply all_todos_appended.
  - by apply store_file_well_formed.
Qed.

Lemma createTodos_cons todoData rest w :
  result (createTodos (todoData :: rest)) w
  = result (createTodo todoData) w
    :: result (createTodos rest) (after (createTodo todoData) w)
  ∧ after (createTodos (todoData :: rest)) w
    = after (createTodos rest) (after (createTodo todoData) w).
Proof.
  cbn [createTodos].
  rewrite (result_bind (createTodo todoData)), (after_bind (createTodo todoData)).
  by rewrite (result_bind (createTodos rest)), (after_bind (createTodos rest)).
Qed.

Lemma createTodos_spec inputs w :
  well_formed w → no_collision inputs w →
  let created := result (createTodos inputs) w in
  let w' := after (createTodos inputs) w in
  NoDup (map id created)
  ∧ (∀ todo, todo ∈ created → id todo ∉ map id (result getAllTodos w))
  ∧ result getAllTodos w' ≡ₚ result getAllTodos w ++ created
  ∧ well_formed w'.
Proof.
  revert w. induction inputs as [|todoData rest IH]; intros w Hw Hfresh.
  - cbn. split_and!; [apply NoDup_nil_2| |by rewrite app_nil_r|done].
    intros todo Hin. by apply elem_of_nil in Hin.
  - destruct Hfresh as [Hnew Hrest].
    destruct (createTodos_cons todoData rest w) as [Hres Hafter].
    cbv zeta. rewrite Hres, Hafter.
    set (newTodo := result (createTodo todoData) w) in *.
    set (w1 := after (createTodo todoData) w) in *.
    destruct (created_in_all_todos _ newTodo w w1 Hw (todosFileFor_json _)
                (createTodo_after todoData w)) as [Hall Hw1].
    destruct (IH w1 Hw1 Hrest) as (Hnodup & Hout & Hperm & Hwf).
    assert (∀ todo, todo ∈ result (createTodos rest) w1 →
                    id todo ∉ map id (result getAllTodos w ++ [newTodo]))
      as Hout'.
    { intros todo Hin. specialize (Hout todo Hin).
      by rewrite Hall in Hout. }
    split_and!.
    + cbn [map]. apply NoDup_cons. split; [|done].
      intros Hin. apply list_elem_of_In, in_map_iff in Hin as (todo & Hid & Hin).
      apply (Hout' todo); [by apply list_elem_of_In|].
      rewrite map_app, Hid. apply elem_of_app. right. apply list_elem_of_here.
    + intros todo [->|Hin]%elem_of_cons; [done|].
      intros Hold. apply (Hout' todo Hin).
      rewrite map_app. apply elem_of_app. by left.
    + rewrite Hperm, Hall, <- app_assoc. done.
    + done.
Qed.

(** ** Replacing a record in its place *)

Lemma findIndex_insert id0 todos index old new :
  findIndex id0 todos = Some (index, old) → id new = id0 →
  findIndex id0 (<[index := new]> todos) = Some (index, new).
Proof.
  unfold findIndex. rewrite !list_find_Some. intros (Hlook & _ & Hfirst) Hid.
  split_and!; [|done|].
  - apply list_lookup_insert_eq. by eapply lookup_lt_Some.
  - intros j y Hj Hlt. rewrite list_lookup_insert_ne in Hj by lia. eauto.
Qed.

(** After the record that the id locates was replaced, in its place, by a
    record with the same id, the id locates the new record. *)
Lemma wrote_found id0 file index old new ticks w w' :
  locate id0 (dir w) (todo_files (dir w)) = Some (file, index, old) →
  wrote file (<[index := new]> (read_todos file (dir w))) ticks w w' →
  id new = id0 →
  result (getTodoById id0) w' = Some new.
Proof.
  intros Hloc (Hdir&_) Hid. rewrite getTodoById_result, Hdir.
  pose proof (locate_Some _ _ _ _ _ _ Hloc) as [Hfile Hfound].
  apply todo_files_json in Hfile as [Hin Hjson].
  rewrite todo_files_store_file, bool_decide_eq_true_2 by done.
  by rewrite (locate_store_file id0 _ _ file index old _ index new Hloc
                (findIndex_insert _ _ _ _ _ Hfound Hid)).
Qed.

Lemma updateTask_run id0 content0 status0 priority0 project0 conversation0 w :
  let updates :=
    mkPartial None content0 status0 priority0 project0 conversation0
              None None in
  let call := updateTask id0 content0 status0 priority0 project0 conversation0 in
  result call w
  = match result (updateTodo id0 updates) w with
    | Some todo => Task todo
    | None => TaskNotFound id0
    end
  ∧ after call w = after (updateTodo id0 updates) w.
Proof.
  intros updates call. unfold call, updateTask. fold updates.
  rewrite (result_bind (updateTodo id0 updates)),
          (after_bind (updateTodo id0 updates)).
  by destruct (result (updateTodo id0 updates) w).
Qed.

Lemma getTodoById_locate id0 w todo :
  result (getTodoById id0) w = Some todo →
  ∃ file index,
    locate id0 (dir w) (todo_files (dir w)) = Some (file, index, todo).
Proof.
  rewrite getTodoById_result.
  destruct (locate id0 (dir w) (todo_files (dir w))) as [[[file index] t]|];
    [|done].
  intros [= ->]. by exists file, index.
Qed.

(** ** Taking a record out *)

Lemma deleteTask_run id0 hardDelete w :
  result (deleteTask id0 hardDelete) w
  = match result (deleteTodo id0 (default false hardDelete)) w with
    | Some data => Outcome data
    | None => TaskNotFound id0
    end
  ∧ after (deleteTask id0 hardDelete) w
    = after (deleteTodo id0 (default false hardDelete)) w.
Proof.
  unfold deleteTask.
  rewrite (result_bind (deleteTodo id0 (default false hardDelete))),
          (after_bind (deleteTodo id0 (default false hardDelete))).
  by destruct (result (deleteTodo id0 (default false hardDelete)) w).
Qed.

(** After the only record with the id was taken out of its file, the id
    locates nothing. *)
Lemma wrote_gone id0 file index old w w' :
  locate id0 (dir w) (todo_files (dir w)) = Some (file, index, old) →
  wrote file (delete index (read_todos file (dir w))) 0 w w' →
  filter (λ todo, id todo = id0) (result getAllTodos w) = [old] →
  result (getTodoById id0) w' = None.
Proof.
  intros Hloc (Hdir&_) Hone. rewrite getAllTodos_result in Hone.
  rewrite getTodoById_result, Hdir.
  pose proof (locate_Some _ _ _ _ _ _ Hloc) as [Hfile Hfound].
  pose proof Hfile as [Hin Hjson]%todo_files_json.
  rewrite todo_files_store_file, bool_decide_eq_true_2 by done.
  destruct (sole_holder id0 (λ g, read_todos g (dir w)) (todo_files (dir w))
              file index old old Hone Hfile Hfound) as (_ & Hrest & Hothers).
  rewrite fmap_None. apply locate_None. intros g Hg.
  rewrite read_todos_store_file. apply findIndex_None.
  destruct (String.eqb_spec file g) as [->|Hne]; [done|].
  apply Hothers; [done|congruence].
Qed.

(** ** Filtering *)

Lemma prefix_app needle text :
  String.prefix needle text = true ↔ ∃ rest, text = needle +:+ rest.
Proof.
  revert needle. induction text as [|c' text IH]; intros [|c needle];
    cbn [String.prefix].
  - split; [intros _; by exists ""|done].
  - split; [done|]. by intros [rest Hrest].
  - split; [intros _; by eexists|done].
  - destruct (ascii_dec c c') as [->|Hne].
    + rewrite IH. split; intros [rest Hrest]; exists rest.
      * by rewrite Hrest.
      * by injection Hrest.
    + split; [done|]. intros [rest Hrest]. injection Hrest. congruence.
Qed.

Lemma includes_app text needle :
  includes text needle = true
  ↔ ∃ before rest, text = before +:+ needle +:+ rest.
Proof.
  induction text as [|c text IH]; cbn [includes]; rewrite orb_true_iff.
  - rewrite prefix_app. split.
    + intros [[rest Hrest]|?]; [|done]. by exists "", rest.
    + intros (before & rest & Hsplit). left. exists rest.
      destruct before; [done|discriminate].
  - rewrite prefix_app, IH. split.
    + intros [[rest Hrest]|(before & rest & Hrest)].
      * by exists "", rest.
      * exists (String c before), rest. by rewrite Hrest.
    + intros (before & rest & Hsplit). destruct before as [|c' before].
      * left. by exists rest.
      * right. exists before, rest. by injection Hsplit.
Qed.

Lemma toLowerCase_app a b :
  toLowerCase (a +:+ b) = toLowerCase a +:+ toLowerCase b.
Proof.
  induction a as [|c a IH]; [done|].
  change (String (toLowerCase_char c) (toLowerCase (a +:+ b))
          = String (toLowerCase_char c) (toLowerCase a +:+ toLowerCase b)).
  by rewrite IH.
Qed.

Lemma toLowerCase_split text a b :
  toLowerCase text = a +:+ b →
  ∃ a' b', text = a' +:+ b' ∧ toLowerCase a' = a ∧ toLowerCase b' = b.
Proof.
  revert text. induction a as [|c a IH]; intros text Htext.
  - by exists "", text.
  - destruct text as [|c' text]; [discriminate|].
    injection Htext as Hc Htext.
    destruct (IH text Htext) as (a' & b' & -> & <- & <-).
    exists (String c' a'), b'. by rewrite <- Hc.
Qed.

(** [text.toLowerCase().includes(keyword.toLowerCase())] is containment
    up to case. *)
Lemma includes_ignoring_case text keyword :
  includes (toLowerCase text) (toLowerCase keyword) = true
  ↔ contains_ignoring_case text keyword.
Proof.
  rewrite includes_app. unfold contains_ignoring_case. split.
  - intros (before & rest & Hsplit).
    apply toLowerCase_split in Hsplit as (before' & tail & -> & _ & Htail).
    apply toLowerCase_split in Htail as (middle & rest' & -> & Hmiddle & _).
    by exists before', middle, rest'.
  - intros (before & middle & rest & -> & Hmiddle).
    exists (toLowerCase before), (toLowerCase rest).
    by rewrite !toLowerCase_app, Hmiddle.
Qed.

(** One equality test of the callback of [filterTodos] against one
    criterion of the specification. *)
Lemma criterion_test (wanted actual : option string) :
  truthy wanted && negb (bool_decide (actual = wanted)) = false
  ↔ ∀ v, non_empty wanted = Some v → actual = Some v.
Proof.
  unfold non_empty. destruct (truthy wanted) eqn:Htruthy; cbn [andb].
  - rewrite negb_false_iff, bool_decide_eq_true. split.
    + by intros -> v ->.
    + intros H. destruct wanted as [v|]; [|done]. by rewrite (H v).
  - split; [done|by intros _].
Qed.

Lemma criterion_test_string (wanted : option string) (actual : string) :
  truthy wanted && negb (bool_decide (Some actual = wanted)) = false
  ↔ ∀ v, non_empty wanted = Some v → actual = v.
Proof.
  rewrite criterion_test.
  split; intros H v Hv; specialize (H v Hv); congruence.
Qed.

Lemma keyword_test (wanted : option string) (text : string) :
  truthy wanted
  && negb (includes (toLowerCase text) (toLowerCase (default "" wanted)))
  = false
  ↔ ∀ v, non_empty wanted = Some v → contains_ignoring_case text v.
Proof.
  unfold non_empty. destruct wanted as [keyword|]; [|done].
  destruct (truthy (Some keyword)); cbn [andb default from_option id];
    [|done].
  rewrite negb_false_iff, includes_ignoring_case. split.
  - by intros H v [= <-].
  - intros H. by apply H.
Qed.

(** The callback of [filterTodos] against the words of the specification. *)
Lemma passes_satisfies criteria todo :
  passes criteria todo = true ↔ satisfies (without_empty criteria) todo.
Proof.
  unfold passes, satisfies. cbn [without_empty f_status f_priority f_project
    f_conversation f_keyword].
  rewrite <- criterion_test_string, <- criterion_test_string,
    <- !criterion_test, <- keyword_test.
  repeat match goal with
  | |- context [if ?test then false else _] => destruct test
  end; intuition congruence.
Qed.

Lemma filterTodos_result criteria w :
  result (filterTodos criteria) w
  = filter (λ todo, passes criteria todo) (result getAllTodos w).
Proof. unfold filterTodos. by rewrite (result_bind getAllTodos). Qed.

(** ** Files that do not parse *)

Lemma read_todos_emptied file d other :
  lookup_file file d = Some Garbage →
  read_todos other (store_file file (Json []) d) = read_todos other d.
Proof.
  intros Hfile. rewrite read_todos_store_file.
  destruct (String.eqb_spec file other) as [<-|]; [|done].
  unfold read_todos. by rewrite Hfile.
Qed.

Lemma todo_files_emptied file d :
  lookup_file file d = Some Garbage →
  todo_files (store_file file (Json []) d) = todo_files d.
Proof.
  intros Hfile%lookup_file_Some. unfold todo_files.
  by rewrite sorted_names_store_file, bool_decide_eq_true_2.
Qed.

Lemma locate_emptied id0 file d files :
  lookup_file file d = Some Garbage →
  locate id0 (store_file file (Json []) d) files = locate id0 d files.
Proof.
  intros Hfile. induction files as [|g files IH]; [done|].
  cbn [locate]. by rewrite IH, read_todos_emptied.
Qed.

Lemma all_todos_emptied file d :
  lookup_file file d = Some Garbage →
  all_todos (store_file file (Json []) d) = all_todos d.
Proof.
  intros Hfile. unfold all_todos. rewrite todo_files_emptied by done.
  apply flat_map_ext. intros g. by apply read_todos_emptied.
Qed.

(** ** Calls to [fs] *)

Lemma preserves_ret {A} P (a : A) : preserves P (ret a).
Proof. by intros w Hw. Qed.

Lemma preserves_bind {A B} P (m : M A) (k : A → M B) :
  preserves P m → (∀ a, preserves P (k a)) → preserves P (bind m k).
Proof. intros Hm Hk w Hw. rewrite after_bind. by apply Hk, Hm. Qed.

Lemma never_renamed_call call w :
  is_rename call = false → never_renamed w → never_renamed (log_call call w).
Proof.
  unfold never_renamed. cbn [log_call fs_calls]. intros Hcall Hw.
  apply Forall_app. split; [done|]. by apply Forall_singleton.
Qed.

Lemma fs_readdir_never_renames : preserves never_renamed fs_readdir.
Proof. intros w. by apply never_renamed_call. Qed.

Lemma existsSync_never_renames file : preserves never_renamed (existsSync file).
Proof. intros w. by apply never_renamed_call. Qed.

Lemma fs_readFile_never_renames file : preserves never_renamed (fs_readFile file).
Proof. intros w. by apply never_renamed_call. Qed.

Lemma fs_writeFile_never_renames file data :
  preserves never_renamed (fs_writeFile file data).
Proof.
  intros w Hw. unfold never_renamed. cbn [after snd fs_writeFile fs_calls].
  apply Forall_app. split; [done|]. by apply Forall_singleton.
Qed.

Lemma console_error_never_renames line :
  preserves never_renamed (console_error line).
Proof. by intros w Hw. Qed.

Lemma Date_toISOString_never_renames : preserves never_renamed Date_toISOString.
Proof. by intros w Hw. Qed.

Lemma generateUUID_never_renames : preserves never_renamed generateUUID.
Proof.
  intros w Hw. unfold never_renamed.
  by destruct (generateUUID_after w) as (_&_&->&_).
Qed.

Ltac never_renames :=
  repeat match goal with
  | H : preserves _ ?m |- preserves _ ?m => exact H
  | |- preserves _ (ret _) => apply preserves_ret
  | |- preserves _ (bind _ _) => apply preserves_bind; [|intros ?]
  | |- preserves _ generateUUID => apply generateUUID_never_renames
  | |- preserves _ fs_readdir => apply fs_readdir_never_renames
  | |- preserves _ (existsSync _) => apply existsSync_never_renames
  | |- preserves _ (fs_readFile _) => apply fs_readFile_never_renames
  | |- preserves _ (fs_writeFile _ _) => apply fs_writeFile_never_renames
  | |- preserves _ (console_error _) => apply console_error_never_renames
  | |- preserves _ Date_toISOString => apply Date_toISOString_never_renames
  | |- preserves _ (match ?x with _ => _ end) => destruct x
  end.

Lemma readTodosFile_never_renames file :
  preserves never_renamed (readTodosFile file).
Proof. unfold readTodosFile. never_renames. Qed.

Lemma getTodoFiles_never_renames : preserves never_renamed getTodoFiles.
Proof. unfold getTodoFiles. never_renames. Qed.

Lemma createTodo_never_renames todoData :
  preserves never_renamed (createTodo todoData).
Proof.
  unfold createTodo, writeTodosFile.
  apply preserves_bind; [apply readTodosFile_never_renames|intros ?].
  never_renames.
Qed.

Lemma createTodo_ts_never_renames todoData :
  preserves never_renamed (createTodo_ts todoData).
Proof.
  unfold createTodo_ts, writeTodosFile.
  apply preserves_bind; [apply readTodosFile_never_renames|intros ?].
  never_renames.
Qed.

Lemma updateTodo_never_renames id0 updates :
  preserves never_renamed (updateTodo id0 updates).
Proof.
  unfold updateTodo.
  apply preserves_bind; [apply getTodoFiles_never_renames|intros files].
  induction files as [|file files IH]; cbn [updateTodo_loop]; [never_renames|].
  apply preserves_bind; [apply readTodosFile_never_renames|intros todos].
  destruct (findIndex id0 todos) as [[index todo]|]; [|exact IH].
  unfold writeTodosFile. never_renames.
Qed.

Lemma deleteTodo_never_renames id0 hardDelete :
  preserves never_renamed (deleteTodo id0 hardDelete).
Proof.
  unfold deleteTodo.
  apply preserves_bind; [apply getTodoFiles_never_renames|intros files].
  induction files as [|file files IH]; cbn [deleteTodo_loop]; [never_renames|].
  apply preserves_bind; [apply readTodosFile_never_renames|intros todos].
  destruct (findIndex id0 todos) as [[index todo]|]; [|exact IH].
  unfold writeTodosFile. destruct hardDelete; never_renames.
Qed.

(** ** The examples of the specification *)

Example filter_by_priority :
  content <$> result (filterTodos (mkFilters None (Some "high") None None None))
                     two_tasks_world
  = ["fix bug"].
Proof. vm_compute. reflexivity. Qed.

Example filter_by_keyword :
  content <$> result (filterTodos (mkFilters None None None None (Some "DOC")))
                     two_tasks_world
  = ["write docs"].
Proof. vm_compute. reflexivity. Qed.

Example fresh_store_is_empty :
  let w := constructed (fresh_world example_random example_clock) in
  result getAllTodos w = []
  ∧ content <$> result getAllTodos
                  (after (createTask "fix bug" None None None None) w)
    = ["fix bug"].
Proof. vm_compute. split; reflexivity. Qed.

Example same_shard_after_sanitizing :
  todosFileFor (Some "My Project!") = "My-Project-.json"
  ∧ todosFileFor (Some "My_Project ") = "My-Project-.json".
Proof. split; reflexivity. Qed.

(** * The claims *)

(** ** C1: Uniqueness of identifiers *)

(** C1, as the specification states it, fails: nothing keeps two calls from
    drawing the same identifier.  With [Math.random] stuck at 0, which is a
    number it may return, two calls return records with one and the same
    identifier. *)
Lemma created_ids_collide :
  random_in_unit_interval stuck_world
  ∧ ¬ NoDup (map id (result (createTodos
                               [mkData "a" "pending" "medium" None None;
                                mkData "b" "pending" "medium" (Some "p") None])
                            stuck_world)).
Proof.
  split; [exact stuck_random_in_unit_interval|].
  assert (map id (result (createTodos
                            [mkData "a" "pending" "medium" None None;
                             mkData "b" "pending" "medium" (Some "p") None])
                         stuck_world)
          = ["00000000-0000-4000-8000-000000000000";
             "00000000-0000-4000-8000-000000000000"]) as ->
    by (vm_compute; reflexivity).
  intros [Hin _]%NoDup_cons. apply Hin, list_elem_of_here.
Qed.

(** C1, amended.  [createTodo] does not look whether the identifier it draws
    is already in use.  For every sequence of calls none of which draws an
    identifier that a record of the store has at the time of the call, no
    two returned records share an identifier, and the identifiers stay
    distinct across all the files of the store: the records of the store
    after the calls are those it had before and the returned ones. *)
Theorem created_ids_unique inputs w :
  well_formed w →
  NoDup (map id (result getAllTodos w)) →
  no_collision inputs w →
  NoDup (map id (result (createTodos inputs) w))
  ∧ result getAllTodos (after (createTodos inputs) w)
    ≡ₚ result getAllTodos w ++ result (createTodos inputs) w
  ∧ NoDup (map id (result getAllTodos (after (createTodos inputs) w))).
Proof.
  intros Hw Hstore Hfresh.
  destruct (createTodos_spec inputs w Hw Hfresh) as (Hnodup & Hout & Hperm & _).
  split_and!; [done|done|].
  rewrite Hperm, map_app. apply NoDup_app. split_and!; [done| |done].
  intros x Hold Hnew.
  apply list_elem_of_In, in_map_iff in Hnew as (todo & <- & Hin).
  by apply (Hout todo); [apply list_elem_of_In|].
Qed.

Lemma created_ids_unique_witness :
  let inputs := [mkData "x" "pending" "medium" (Some "My Project!") None;
                 mkData "y" "pending" "high" None None] in
  NoDup (map id (result (createTodos inputs) example_world))
  ∧ result getAllTodos (after (createTodos inputs) example_world)
    ≡ₚ result getAllTodos example_world
       ++ result (createTodos inputs) example_world
  ∧ NoDup (map id (result getAllTodos
                     (after (createTodos inputs) example_world))).
Proof.
  intros inputs. apply (created_ids_unique inputs example_world).
  - apply NoDup_nil_2.
  - apply NoDup_nil_2.
  - refine (conj _ (conj _ I)); apply (bool_decide_unpack _); vm_compute;
      exact I.
Defined.

(** ** C2: What [createTask] accepts *)

(** C2, as the specification states it, fails: [createTask] with the empty
    string for [content] is not refused, in either source; it answers with a
    record whose content is the empty string, and that record is in the
    store afterwards. *)
Lemma createTask_empty_content_not_refused :
  let call := createTask "" None None None None in
  let call_ts := createTask_ts "" None None None None in
  ¬ refused call example_world
  ∧ ¬ refused call_ts example_world
  ∧ (∃ todo, result call example_world = Task todo
             ∧ content todo = ""
             ∧ result getAllTodos (after call example_world) = [todo])
  ∧ (∃ todo, result call_ts example_world = Task todo
             ∧ content todo = ""
             ∧ result getAllTodos (after call_ts example_world) = [todo]).
Proof.
  split_and!.
  - intros [[error Herror] _]. vm_compute in Herror. discriminate Herror.
  - intros [[error Herror] _]. vm_compute in Herror. discriminate Herror.
  - vm_compute. eexists. repeat split.
  - vm_compute. eexists. repeat split.
Qed.

(** C2, amended.  [createTask] checks nothing about [content]: for every
    content, the empty string included, it answers with the record it
    created, whose content is the one given, and the record is appended to
    the file of its project.  The TypeScript [createTodo] goes further and
    stores the empty string for a [content] that is missing. *)
Theorem createTask_accepts_any_content
  content0 status0 priority0 project0 conversation0 w :
  (∃ todo,
     result (createTask content0 status0 priority0 project0 conversation0) w
     = Task todo
     ∧ content todo = content0
     ∧ result (readTodosFile (todosFileFor project0))
         (after (createTask content0 status0 priority0 project0 conversation0) w)
       = result (readTodosFile (todosFileFor project0)) w ++ [todo])
  ∧ (∃ todo,
     result (createTask_ts content0 status0 priority0 project0 conversation0) w
     = Task todo
     ∧ content todo = content0
     ∧ result (readTodosFile (todosFileFor project0))
         (after (createTask_ts content0 status0 priority0 project0
                               conversation0) w)
       = result (readTodosFile (todosFileFor project0)) w ++ [todo])
  ∧ (∀ todoData,
       p_content todoData = None ∨ p_content todoData = Some "" →
       content (result (createTodo_ts todoData) w) = ""
       ∧ result (readTodosFile (todosFileFor (p_project todoData)))
           (after (createTodo_ts todoData) w)
         = result (readTodosFile (todosFileFor (p_project todoData))) w
           ++ [result (createTodo_ts todoData) w]).
Proof.
  split_and!.
  - destruct (createTask_run content0 status0 priority0 project0
                conversation0 w) as [-> ->].
    set (todoData := mkData _ _ _ _ _).
    exists (result (createTodo todoData) w). split; [done|]. split.
    + by rewrite createTodo_result.
    + exact (created_in_appends _ _ _ _ (createTodo_after todoData w)).
  - destruct (createTask_ts_run content0 status0 priority0 project0
                conversation0 w) as [-> ->].
    set (todoData := mkPartial _ _ _ _ _ _ _ _).
    exists (result (createTodo_ts todoData) w). split; [done|]. split.
    + rewrite createTodo_ts_result. apply or_default_Some.
    + exact (created_in_appends _ _ _ _ (createTodo_ts_after todoData w)).
  - intros todoData Hcontent. split.
    + rewrite createTodo_ts_result. cbn [content].
      by destruct Hcontent as [-> | ->].
    + apply created_in_appends, createTodo_ts_after.
Qed.

Lemma createTask_accepts_any_content_witness :
  let todoData := mkPartial None None None None None None None None in
  content (result (createTodo_ts todoData) example_world) = ""
  ∧ result (readTodosFile (todosFileFor (p_project todoData)))
      (after (createTodo_ts todoData) example_world)
    = result (readTodosFile (todosFileFor (p_project todoData))) example_world
      ++ [result (createTodo_ts todoData) example_world].
Proof.
  intros todoData.
  apply (proj2 (proj2 (createTask_accepts_any_content
                         "" None None None None example_world)) todoData).
  left. reflexivity.
Defined.

(** ** C3: Updating *)



(** ** C4: Deleting *)

(** C4, as the specification states it, fails when two records have the
    same identifier, which [createTodo] does not exclude: with
    [Math.random] stuck at 0 the two records created have one identifier,
    and after the hard delete of it [getTask] still finds a record. *)
Lemma hard_delete_then_get_finds :
  let w1 := after (createTask "a" None None None None) stuck_world in
  let w2 := after (createTask "b" None None None None) w1 in
  let id0 := "00000000-0000-4000-8000-000000000000" in
  result (deleteTask id0 (Some true)) w2 = Outcome (Deleted id0 true)
  ∧ result (getTask id0) (after (deleteTask id0 (Some true)) w2)
    ≠ TaskNotFound id0.
Proof. vm_compute. split; [reflexivity|discriminate]. Qed.

(** C4, amended.  For an id that [getTask] does not find, [deleteTask]
    answers not-found and changes no file.  For a record [old] that
    [getTask] finds under [id0]:
    - the soft delete ([hardDelete] false or not given) answers with the
      record with [status] 'cancelled' and [updatedAt] the current time, all
      other fields as in [old]; that record takes the place of [old] in its
      file, and [getTask] finds it under [id0] afterwards;
    - the hard delete answers [{ id, deleted: true }] and takes [old] out of
      its file; provided [old] is the only record of the store with the
      identifier [id0], [getTask] does not find [id0] afterwards. *)
Theorem deleteTask_outcomes id0 w :
  (result (getTodoById id0) w = None →
   ∀ hardDelete,
     result (deleteTask id0 hardDelete) w = TaskNotFound id0
     ∧ dir (after (deleteTask id0 hardDelete) w) = dir w)
  ∧ (∀ old, result (getTodoById id0) w = Some old →
     ∃ file index,
       result (readTodosFile file) w !! index = Some old
       ∧ (∀ hardDelete, hardDelete = None ∨ hardDelete = Some false →
          let call := deleteTask id0 hardDelete in
          ∃ kept,
            result call w = Outcome (Cancelled kept)
            ∧ status kept = "cancelled"
            ∧ updatedAt kept = now w
            ∧ id kept = id old
            ∧ content kept = content old
            ∧ priority kept = priority old
            ∧ project kept = project old
            ∧ conversation kept = conversation old
            ∧ createdAt kept = createdAt old
            ∧ result (readTodosFile file) (after call w)
              = <[index := kept]> (result (readTodosFile file) w)
            ∧ result (getTodoById id0) (after call w) = Some kept)
       ∧ (let call := deleteTask id0 (Some true) in
          result call w = Outcome (Deleted id0 true)
          ∧ result (readTodosFile file) (after call w)
            = delete index (result (readTodosFile file) w)
          ∧ (filter (λ todo, id todo = id0) (result getAllTodos w) = [old] →
             result (getTodoById id0) (after call w) = None))).
Proof.
  split.
  - intros Hnone hardDelete.
    destruct (deleteTask_run id0 hardDelete w) as [-> ->].
    pose proof (deleteTodo_spec id0 (default false hardDelete) w) as Hspec.
    rewrite getTodoById_result, fmap_None in Hnone. rewrite Hnone in Hspec.
    destruct Hspec as [-> (Hdir&_)]. done.
  - intros old (file & index & Hloc)%getTodoById_locate.
    pose proof (locate_Some _ _ _ _ _ _ Hloc) as [Hfile Hfound].
    pose proof Hfound as [Hlook Hid]%findIndex_Some.
    exists file, index. rewrite !readTodosFile_result.
    split; [exact Hlook|]. split.
    + intros hardDelete Hsoft call.
      assert (default false hardDelete = false) as Hdefault
        by by destruct Hsoft as [-> | ->].
      destruct (deleteTask_run id0 hardDelete w) as [Hres Hafter].
      fold call in Hres, Hafter. rewrite Hres, Hafter, Hdefault.
      pose proof (deleteTodo_spec id0 false w) as Hspec.
      rewrite Hloc in Hspec. destruct Hspec as [-> Hwrote].
      exists (cancel old (now w)). split_and!; try done.
      * rewrite readTodosFile_result. destruct Hwrote as (->&_).
        by rewrite read_todos_store_file, String.eqb_refl.
      * by eapply wrote_found.
    + cbv zeta.
      destruct (deleteTask_run id0 (Some true) w) as [Hres Hafter].
      change (default false (Some true)) with true in Hres, Hafter.
      rewrite Hres, Hafter.
      pose proof (deleteTodo_spec id0 true w) as Hspec.
      rewrite Hloc in Hspec. destruct Hspec as [-> Hwrote].
      split_and!; [done| |].
      * rewrite readTodosFile_result. destruct Hwrote as (->&_).
        by rewrite read_todos_store_file, String.eqb_refl.
      * intros Hone. by eapply wrote_gone.
Qed.

Lemma deleteTask_outcomes_witness :
  let w1 := after (createTask "fix bug" None None None None) example_world in
  let old := result (createTodo (mkData "fix bug" "pending" "medium" None None))
                    example_world in
  ∃ file index,
    result (readTodosFile file) w1 !! index = Some old
    ∧ (∃ kept,
         result (deleteTask (id old) None) w1 = Outcome (Cancelled kept)
         ∧ status kept = "cancelled"
         ∧ result (getTodoById (id old)) (after (deleteTask (id old) None) w1)
           = Some kept)
    ∧ result (deleteTask (id old) (Some true)) w1
      = Outcome (Deleted (id old) true)
    ∧ result (getTodoById (id old))
        (after (deleteTask (id old) (Some true)) w1)
      = None.
Proof.
  intros w1 old.
  destruct (proj2 (deleteTask_outcomes (id old) w1) old)
    as (file & index & Hlook & Hsoft & Hhard & _ & Hgone).
  { vm_compute. reflexivity. }
  destruct (Hsoft None) as (kept & Hres & Hstatus & _ & _ & _ & _ & _ & _ & _
                            & _ & Hget).
  { left. reflexivity. }
  exists file, index. split; [exact Hlook|]. split.
  - exists kept. split_and!; [exact Hres|exact Hstatus|exact Hget].
  - split; [exact Hhard|]. apply Hgone. vm_compute. reflexivity.
Defined.

(** ** C5: Creating, then getting *)

(** C5, as the specification states it, fails when the identifier drawn is
    one that the store already holds: with [Math.random] stuck at 0, the
    second record created gets the identifier of the first, and [getTask]
    on it returns the first. *)
Lemma create_then_get_collision :
  let w1 := after (createTask "a" None None None None) stuck_world in
  let w2 := after (createTask "b" None None None None) w1 in
  ∃ created found,
    result (createTask "b" None None None None) w1 = Task created
    ∧ result (getTask (id created)) w2 = Task found
    ∧ content created = "b" ∧ content found = "a".
Proof. vm_compute. eexists _, _. repeat split. Qed.

(** C5, amended.  [createTask], in either source, answers with the record it
    created: its content is the one given, its status is 'pending' and its
    priority 'medium' when the caller gave none.  Provided the identifier
    drawn for it is not the identifier of a record already in the store,
    [getTask] on that identifier then returns this very record, so all its
    fields are those of the created record. *)
Theorem create_then_get content0 status0 priority0 project0 conversation0 w :
  (∃ todo,
     result (createTask content0 status0 priority0 project0 conversation0) w
     = Task todo
     ∧ content todo = content0
     ∧ status todo = default "pending" status0
     ∧ priority todo = default "medium" priority0
     ∧ project todo = project0
     ∧ conversation todo = conversation0
     ∧ (id todo ∉ map id (result getAllTodos w) →
        result (getTask (id todo))
          (after (createTask content0 status0 priority0 project0
                             conversation0) w)
        = Task todo))
  ∧ (∃ todo,
     result (createTask_ts content0 status0 priority0 project0 conversation0) w
     = Task todo
     ∧ content todo = content0
     ∧ (status0 = None → status todo = "pending")
     ∧ (priority0 = None → priority todo = "medium")
     ∧ (id todo ∉ map id (result getAllTodos w) →
        result (getTask (id todo))
          (after (createTask_ts content0 status0 priority0 project0
                                conversation0) w)
        = Task todo)).
Proof.
  split.
  - destruct (createTask_run content0 status0 priority0 project0
                conversation0 w) as [-> ->].
    set (todoData := mkData _ _ _ _ _).
    exists (result (createTodo todoData) w).
    split; [done|].
    rewrite createTodo_result at 1 2 3 4 5.
    cbn [content status priority project conversation todoData data_content
         data_status data_priority data_project data_conversation].
    split_and!; try done.
    intros Hfresh. rewrite getTask_run.
    by rewrite (created_in_found _ _ _ _ (todosFileFor_json _)
                  (createTodo_after todoData w) Hfresh).
  - destruct (createTask_ts_run content0 status0 priority0 project0
                conversation0 w) as [-> ->].
    set (todoData := mkPartial _ _ _ _ _ _ _ _).
    exists (result (createTodo_ts todoData) w).
    split; [done|].
    rewrite createTodo_ts_result at 1 2 3.
    cbn [content status priority todoData p_content p_status p_priority].
    split_and!.
    + apply or_default_Some.
    + by intros ->.
    + by intros ->.
    + intros Hfresh. rewrite getTask_run.
      by rewrite (created_in_found _ _ _ _ (todosFileFor_json _)
                    (createTodo_ts_after todoData w) Hfresh).
Qed.

Lemma create_then_get_witness :
  ∃ todo,
    result (createTask "fix bug" None None None None) example_world = Task todo
    ∧ result (getTask (id todo))
        (after (createTask "fix bug" None None None None) example_world)
      = Task todo.
Proof.
  destruct (proj1 (create_then_get "fix bug" None None None None example_world))
    as (todo & Hcreated & _ & _ & _ & _ & _ & Hget).
  exists todo. split; [exact Hcreated|]. apply Hget.
  rewrite getAllTodos_result. apply not_elem_of_nil.
Defined.

(** ** C6: Shard routing *)

(** C6.  The shard of a new record is a function of its [project] alone,
    and it is [shardFor] as the specification words it: the file that
    [createTodo] resolves is the default shard, 'default', when [project] is
    absent or the empty string, and otherwise [project] with every
    character outside [A-Za-z0-9] replaced by '-', character by character;
    the file carries the extension [.json].  [createTodo], in either
    source, appends the record to that file; so two calls whose projects
    have the same shard store their records in the same file, one after
    the other. *)
Theorem shard_routing :
  (∀ project0, todosFileFor project0 = shardFor project0 +:+ ".json")
  ∧ todosFileFor None = "default.json"
  ∧ todosFileFor (Some "") = "default.json"
  ∧ (∀ p, p ≠ "" →
       ∃ shard,
         todosFileFor (Some p) = shard +:+ ".json"
         ∧ String.length shard = String.length p
         ∧ ∀ i c, String.get i p = Some c →
             String.get i shard
             = Some (if bool_decide (c ∈ letters_and_digits) then c
                     else "-"%char))
  ∧ (∀ todoData w,
       result (readTodosFile (todosFileFor (data_project todoData)))
              (after (createTodo todoData) w)
       = result (readTodosFile (todosFileFor (data_project todoData))) w
         ++ [result (createTodo todoData) w])
  ∧ (∀ todoData w,
       result (readTodosFile (todosFileFor (p_project todoData)))
              (after (createTodo_ts todoData) w)
       = result (readTodosFile (todosFileFor (p_project todoData))) w
         ++ [result (createTodo_ts todoData) w])
  ∧ (∀ data1 data2 w,
       shardFor (data_project data1) = shardFor (data_project data2) →
       let w1 := after (createTodo data1) w in
       let w2 := after (createTodo data2) w1 in
       let file := shardFor (data_project data1) +:+ ".json" in
       result (readTodosFile file) w2
       = result (readTodosFile file) w
         ++ [result (createTodo data1) w; result (createTodo data2) w1]).
Proof.
  split_and!; [apply todosFileFor_shardFor|done|done| | | |].
  - intros p Hp. exists (replace_outside letters_and_digits p).
    split_and!.
    + rewrite todosFileFor_shardFor. unfold shardFor.
      by rewrite decide_False.
    + apply replace_outside_length.
    + intros i c Hget. by rewrite replace_outside_get, Hget.
  - intros todoData w. apply created_in_appends, createTodo_after.
  - intros todoData w. apply created_in_appends, createTodo_ts_after.
  - intros data1 data2 w Hsame. cbv zeta.
    set (w1 := after (createTodo data1) w).
    pose proof (createTodo_after data1 w) as Hfirst.
    pose proof (createTodo_after data2 w1) as Hsecond.
    rewrite todosFileFor_shardFor in Hfirst, Hsecond.
    rewrite <- Hsame in Hsecond.
    rewrite (created_in_appends _ _ _ _ Hsecond).
    fold w1 in Hfirst. rewrite (created_in_appends _ _ _ _ Hfirst).
    by rewrite <- app_assoc.
Qed.

Lemma shard_routing_witness :
  let data1 := mkData "x" "pending" "medium" (Some "My Project!") None in
  let data2 := mkData "y" "pending" "medium" (Some "My_Project ") None in
  let w1 := after (createTodo data1) example_world in
  let w2 := after (createTodo data2) w1 in
  result (readTodosFile "My-Project-.json") w2
  = result (readTodosFile "My-Project-.json") example_world
    ++ [result (createTodo data1) example_world;
        result (createTodo data2) w1].
Proof.
  intros data1 data2.
  exact (proj2 (proj2 (proj2 (proj2 (proj2 (proj2 shard_routing)))))
           data1 data2 example_world eq_refl).
Defined.

(** ** C7: Filtering *)

(** C7, as the specification states it, fails for a criterion that is
    supplied as the empty string: [filterTodos] takes it as absent.  With
    the one record of the store in project 'p', the criteria [{ project: '' }]
    return that record, which does not satisfy them. *)
Lemma filter_empty_criterion :
  let w1 := after (createTask "fix bug" None None (Some "p") None)
                  example_world in
  let criteria := mkFilters None None (Some "") None None in
  ∃ todo, todo ∈ result (filterTodos criteria) w1 ∧ ¬ satisfies criteria todo.
Proof.
  intros w1 criteria.
  exists (result (createTodo (mkData "fix bug" "pending" "medium" (Some "p") None))
                 example_world).
  split.
  - vm_compute. apply list_elem_of_here.
  - intros (_ & _ & Hproject & _). specialize (Hproject "" eq_refl).
    vm_compute in Hproject. discriminate Hproject.
Qed.

(** C7, amended.  For every store and all criteria, [filterTodos] returns
    the records of [getAllTodos] that pass its callback, in the order of
    [getAllTodos]; and a record passes exactly when it satisfies all the
    criteria that are supplied and are not the empty string: [status],
    [priority], [project] and [conversation] by equality, [keyword] by
    case-insensitive containment in [content].  Criteria that are absent or
    the empty string ask nothing. *)
Theorem filterTodos_criteria criteria w :
  result (filterTodos criteria) w
  = filter (λ todo, passes criteria todo) (result getAllTodos w)
  ∧ (∀ todo, passes criteria todo = true
             ↔ satisfies (without_empty criteria) todo)
  ∧ (∀ todo, todo ∈ result (filterTodos criteria) w
             ↔ todo ∈ result getAllTodos w
               ∧ satisfies (without_empty criteria) todo)
  ∧ sublist (result (filterTodos criteria) w) (result getAllTodos w)
  ∧ result (filterTasks criteria) w
    = Tasks (result (filterTodos criteria) w)
            (length (result (filterTodos criteria) w)).
Proof.
  split_and!.
  - apply filterTodos_result.
  - apply passes_satisfies.
  - intros todo. rewrite filterTodos_result, list_elem_of_filter.
    rewrite Is_true_true, passes_satisfies. tauto.
  - rewrite filterTodos_result. apply sublist_filter.
  - unfold filterTasks. by rewrite (result_bind (filterTodos criteria)).
Qed.

(** ** C8: A file that does not parse *)

(** C8, as the specification states it, fails: no failure reaches the caller
    of a read, and a write to the file that does not parse is not refused.
    With a default file that does not parse, [getAllTasks] answers with
    success and no record, and [createTask] replaces the text of the
    file. *)
Lemma corrupt_shard_overwritten :
  result getAllTasks corrupt_world = Tasks [] 0
  ∧ ¬ refused (createTask "x" None None None None) corrupt_world
  ∧ lookup_file DEFAULT_TODOS_FILE
      (dir (after (createTask "x" None None None None) corrupt_world))
    ≠ Some Garbage.
Proof.
  split_and!.
  - vm_compute. reflexivity.
  - intros [[error Herror] _]. vm_compute in Herror. discriminate Herror.
  - vm_compute. discriminate.
Qed.

(** C8, amended.  For every file of the store that does not parse:
    [readTodosFile] writes a line to the console, changes no file and gives
    the empty sequence; [getAllTodos], [getTodoById] and [filterTodos] give
    what they would give if the file held the empty array, and their tools
    answer as for any other store, never with a failure.  A write to the
    file is not refused: [createTodo] on a project of that file replaces
    its text with the array of the one new record. *)
Theorem corrupt_shard_reads_empty file w :
  lookup_file file (dir w) = Some Garbage →
  (result (readTodosFile file) w = []
   ∧ console (after (readTodosFile file) w)
     = console w ++ ["Error reading todos file " +:+ file +:+ ":"]
   ∧ dir (after (readTodosFile file) w) = dir w)
  ∧ result getAllTodos w = result getAllTodos (emptied file w)
  ∧ (∀ id0, result (getTodoById id0) w
            = result (getTodoById id0) (emptied file w))
  ∧ (∀ criteria, result (filterTodos criteria) w
                 = result (filterTodos criteria) (emptied file w))
  ∧ (∃ data count, result getAllTasks w = Tasks data count)
  ∧ (∀ id0 error, result (getTask id0) w ≠ Failed error)
  ∧ (∀ criteria, ∃ data count, result (filterTasks criteria) w = Tasks data count)
  ∧ (∀ todoData, todosFileFor (data_project todoData) = file →
       lookup_file file (dir (after (createTodo todoData) w))
       = Some (Json [result (createTodo todoData) w])).
Proof.
  intros Hfile. split_and!.
  - rewrite readTodosFile_result. unfold read_todos. by rewrite Hfile.
  - unfold readTodosFile, after, bind, existsSync, fs_readFile, console_error,
      ret. simpl. rewrite Hfile. simpl. rewrite Hfile. reflexivity.
  - apply readTodosFile_quiet.
  - rewrite !getAllTodos_result. cbn [emptied dir].
    by rewrite all_todos_emptied.
  - intros id0. rewrite !getTodoById_result. cbn [emptied dir].
    by rewrite todo_files_emptied, locate_emptied.
  - intros criteria. rewrite !filterTodos_result, !getAllTodos_result.
    cbn [emptied dir]. by rewrite all_todos_emptied.
  - unfold getAllTasks. rewrite (result_bind getAllTodos). by eexists _, _.
  - intros id0 error. rewrite getTask_run.
    by destruct (result (getTodoById id0) w).
  - intros criteria. unfold filterTasks.
    rewrite (result_bind (filterTodos criteria)). by eexists _, _.
  - intros todoData <-.
    destruct (createTodo_after todoData w) as (-> & _).
    rewrite lookup_store_file, String.eqb_refl.
    unfold read_todos. by rewrite Hfile.
Qed.

Lemma corrupt_shard_reads_empty_witness :
  result (readTodosFile DEFAULT_TODOS_FILE) corrupt_world = []
  ∧ console (after (readTodosFile DEFAULT_TODOS_FILE) corrupt_world)
    = ["Error reading todos file default.json:"]
  ∧ lookup_file DEFAULT_TODOS_FILE
      (dir (after (createTodo (mkData "x" "pending" "medium" None None))
                  corrupt_world))
    = Some (Json [result (createTodo (mkData "x" "pending" "medium" None None))
                         corrupt_world]).
Proof.
  destruct (corrupt_shard_reads_empty DEFAULT_TODOS_FILE corrupt_world)
    as ((Hread & Hconsole & _) & _ & _ & _ & _ & _ & _ & Hwrite).
  { reflexivity. }
  split_and!; [exact Hread|exact Hconsole|].
  apply Hwrite. reflexivity.
Defined.

(** ** C9: How a shard is written *)

(** C9, as the specification states it, fails: the one call that writes a
    shard is [fs.writeFile] on the file itself; there is no temporary file
    and no rename. *)
Lemma shard_not_published_by_rename :
  fs_calls (after (writeTodosFile DEFAULT_TODOS_FILE []) example_world)
  = [WriteFile DEFAULT_TODOS_FILE (Json [])]
  ∧ ¬ published_by_rename DEFAULT_TODOS_FILE
        (fs_calls (after (writeTodosFile DEFAULT_TODOS_FILE []) example_world)).
Proof.
  split; [reflexivity|].
  intros [_ Hnot]. apply Hnot. exists (Json []). apply list_elem_of_here.
Qed.

(** C9, amended.  Every write of a shard is one call of [fs.writeFile] on
    the file of the shard itself, with the text of all its records: the
    records read back are the records written, and no other file changes.
    No operation of the store calls [fs.rename]; in particular
    [createTodo] writes the file of the project in place. *)
Theorem shard_written_in_place file todos w :
  fs_calls (after (writeTodosFile file todos) w)
  = fs_calls w ++ [WriteFile file (JSON_stringify todos)]
  ∧ result (readTodosFile file) (after (writeTodosFile file todos) w) = todos
  ∧ (∀ other, other ≠ file →
       lookup_file other (dir (after (writeTodosFile file todos) w))
       = lookup_file other (dir w))
  ∧ (∀ todoData,
       written_in_place (todosFileFor (data_project todoData))
         (fs_calls (after (createTodo todoData) w)))
  ∧ (never_renamed w →
     ∀ todoData todoData' id0 updates hardDelete,
       never_renamed (after (createTodo todoData) w)
       ∧ never_renamed (after (createTodo_ts todoData') w)
       ∧ never_renamed (after (updateTodo id0 updates) w)
       ∧ never_renamed (after (deleteTodo id0 hardDelete) w)).
Proof.
  split_and!.
  - reflexivity.
  - rewrite readTodosFile_result.
    cbn [after snd writeTodosFile fs_writeFile dir JSON_stringify].
    by rewrite read_todos_store_file, String.eqb_refl.
  - intros other Hne.
    cbn [after snd writeTodosFile fs_writeFile dir JSON_stringify].
    rewrite lookup_store_file. destruct (String.eqb_spec file other); congruence.
  - intros todoData. unfold after. rewrite createTodo_run.
    cbn [snd create_tail_run fs_calls]. eexists.
    apply elem_of_app. right. apply list_elem_of_here.
  - intros Hw todoData todoData' id0 updates hardDelete. split_and!.
    + by apply createTodo_never_renames.
    + by apply createTodo_ts_never_renames.
    + by apply updateTodo_never_renames.
    + by apply deleteTodo_never_renames.
Qed.

Lemma shard_written_in_place_witness :
  never_renamed example_world
  ∧ never_renamed
      (after (createTodo (mkData "x" "pending" "medium" None None))
             example_world).
Proof.
  assert (never_renamed example_world) as Hw by apply Forall_nil_2.
  split; [exact Hw|].
  exact (proj1 (proj2 (proj2 (proj2 (proj2
           (shard_written_in_place DEFAULT_TODOS_FILE [] example_world))))
           Hw (mkData "x" "pending" "medium" None None)
           (mkPartial None None None None None None None None)
           "" (mkPartial None None None None None None None None) false)).
Defined.

(** ** C10: The format of identifiers *)

(** C10.  Every identifier that the store assigns, in [createTodo] of
    either source, is a 36-character string in the format of a version-4
    UUID: hyphens at the indices 8, 13, 18 and 23, the character '4' at
    index 14, one of '8', '9', 'a', 'b' at index 19, and a lowercase
    hexadecimal digit everywhere else.  [Math.random] is taken to return
    numbers of the interval [0, 1), as it is specified to. *)
Theorem assigned_ids_are_uuid_v4 w :
  random_in_unit_interval w →
  (∀ todoData, uuid_v4 (id (result (createTodo todoData) w)))
  ∧ (∀ todoData, uuid_v4 (id (result (createTodo_ts todoData) w))).
Proof.
  intros Hrand.
  assert (∀ file, uuid_v4 (drawn_id file w)) as Hdrawn.
  { intros file. apply generateUUID_v4. intros n.
    destruct (readTodosFile_quiet file w) as (_&->&_). apply Hrand. }
  split; intros todoData.
  - rewrite createTodo_result. apply Hdrawn.
  - rewrite createTodo_ts_result. apply Hdrawn.
Qed.

Lemma assigned_ids_are_uuid_v4_witness :
  random_in_unit_interval example_world
  ∧ uuid_v4 (id (result (createTodo (mkData "fix bug" "pending" "high" None None))
                        example_world)).
Proof.
  split; [exact example_random_in_unit_interval|].
  exact (proj1 (assigned_ids_are_uuid_v4 example_world
                  example_random_in_unit_interval) _).
Defined.

(** * Further properties of the store *)

(** ** Relations kept along a run *)

Section keeps.

Context (R : World → World → Prop).
Context (R_refl : ∀ w, R w w).
Context (R_trans : ∀ w1 w2 w3, R w1 w2 → R w2 w3 → R w1 w3).

Lemma keeps_ret {A} (a : A) : keeps R (ret a).
Proof. intros w. apply R_refl. Qed.

Lemma keeps_bind {A B} (m : M A) (k : A → M B) :
  keeps R m → (∀ a, keeps R (k a)) → keeps R (bind m k).
Proof.
  intros Hm Hk w. rewrite after_bind. eapply R_trans; [apply Hm|apply Hk].
Qed.

(** A relation that the two reads of the directory keep is kept by every
    read path of the store. *)
Context (R_getTodoFiles : keeps R getTodoFiles).
Context (R_readTodosFile : ∀ file, keeps R (readTodosFile file)).

Lemma keeps_getAllTodos : keeps R getAllTodos.
Proof.
  unfold getAllTodos. apply keeps_bind; [exact R_getTodoFiles|intros files].
  generalize (@nil Todo).
  induction files as [|file files IH]; intros acc; cbn [getAllTodos_loop].
  - apply keeps_ret.
  - apply keeps_bind; [apply R_readTodosFile|]. intros todos. apply IH.
Qed.

Lemma keeps_getTodoById id0 : keeps R (getTodoById id0).
Proof.
  unfold getTodoById. apply keeps_bind; [exact R_getTodoFiles|intros files].
  induction files as [|file files IH]; cbn [getTodoById_loop].
  - apply keeps_ret.
  - apply keeps_bind; [apply R_readTodosFile|]. intros todos.
    destruct (findIndex id0 todos) as [[index todo]|]; [apply keeps_ret|exact IH].
Qed.

Lemma keeps_filterTodos filters : keeps R (filterTodos filters).
Proof.
  unfold filterTodos. apply keeps_bind; [exact keeps_getAllTodos|].
  intros allTodos. apply keeps_ret.
Qed.

Lemma keeps_getAllTasks : keeps R getAllTasks.
Proof.
  unfold getAllTasks. apply keeps_bind; [exact keeps_getAllTodos|].
  intros allTasks. apply keeps_ret.
Qed.

Lemma keeps_getTask id0 : keeps R (getTask id0).
Proof.
  unfold getTask. apply keeps_bind; [apply keeps_getTodoById|].
  intros [todo|]; apply keeps_ret.
Qed.

Lemma keeps_filterTasks filters : keeps R (filterTasks filters).
Proof.
  unfold filterTasks. apply keeps_bind; [apply keeps_filterTodos|].
  intros filteredTasks. apply keeps_ret.
Qed.

(** If the clock, [generateUUID] and [writeTodosFile] keep it too, so does
    every path that writes. *)
Context (R_Date : keeps R Date_toISOString).
Context (R_generateUUID : keeps R generateUUID).
Context (R_writeTodosFile : ∀ file todos, keeps R (writeTodosFile file todos)).

Ltac keeps_steps :=
  repeat match goal with
  | |- keeps _ (ret _) => apply keeps_ret
  | |- keeps _ (bind _ _) => apply keeps_bind; [|intros ?]
  | |- keeps _ generateUUID => exact R_generateUUID
  | |- keeps _ Date_toISOString => exact R_Date
  | |- keeps _ (readTodosFile _) => apply R_readTodosFile
  | |- keeps _ (writeTodosFile _ _) => apply R_writeTodosFile
  end.

Lemma keeps_createTodo todoData : keeps R (createTodo todoData).
Proof. unfold createTodo. cbv zeta. keeps_steps. Qed.

Lemma keeps_createTodo_ts todoData : keeps R (createTodo_ts todoData).
Proof. unfold createTodo_ts. cbv zeta. keeps_steps. Qed.

Lemma keeps_updateTodo id0 updates : keeps R (updateTodo id0 updates).
Proof.
  unfold updateTodo. apply keeps_bind; [exact R_getTodoFiles|intros files].
  induction files as [|file files IH]; cbn [updateTodo_loop]; [apply keeps_ret|].
  apply keeps_bind; [apply R_readTodosFile|intros todos].
  destruct (findIndex id0 todos) as [[index todo]|]; [|exact IH].
  cbv zeta. keeps_steps.
Qed.

Lemma keeps_deleteTodo id0 hardDelete : keeps R (deleteTodo id0 hardDelete).
Proof.
  unfold deleteTodo. apply keeps_bind; [exact R_getTodoFiles|intros files].
  induction files as [|file files IH]; cbn [deleteTodo_loop]; [apply keeps_ret|].
  apply keeps_bind; [apply R_readTodosFile|intros todos].
  destruct (findIndex id0 todos) as [[index todo]|]; [|exact IH].
  destruct hardDelete; cbv zeta; keeps_steps.
Qed.

Lemma keeps_createTask content0 status0 priority0 project0 conversation0 :
  keeps R (createTask content0 status0 priority0 project0 conversation0).
Proof.
  unfold createTask. cbv zeta. apply keeps_bind; [apply keeps_createTodo|].
  intros newTask. apply keeps_ret.
Qed.

Lemma keeps_createTask_ts content0 status0 priority0 project0 conversation0 :
  keeps R (createTask_ts content0 status0 priority0 project0 conversation0).
Proof.
  unfold createTask_ts. cbv zeta. apply keeps_bind; [apply keeps_createTodo_ts|].
  intros newTask. apply keeps_ret.
Qed.

Lemma keeps_updateTask id0 content0 status0 priority0 project0 conversation0 :
  keeps R (updateTask id0 content0 status0 priority0 project0 conversation0).
Proof.
  unfold updateTask. cbv zeta. apply keeps_bind; [apply keeps_updateTodo|].
  intros [todo|]; apply keeps_ret.
Qed.

Lemma keeps_deleteTask id0 hardDelete : keeps R (deleteTask id0 hardDelete).
Proof.
  unfold deleteTask. apply keeps_bind; [apply keeps_deleteTodo|].
  intros [data|]; apply keeps_ret.
Qed.

End keeps.

(** ** Reading writes nothing *)

Lemma read_only_refl w : read_only w w.
Proof. split; [apply quiet_refl|]. exists []. by rewrite app_nil_r. Qed.

Lemma read_only_trans w1 w2 w3 :
  read_only w1 w2 → read_only w2 w3 → read_only w1 w3.
Proof.
  intros [Hq1 (c1 & Hc1 & Hf1)] [Hq2 (c2 & Hc2 & Hf2)].
  split; [by eapply quiet_trans|]. exists (c1 ++ c2).
  split; [by rewrite Hc2, Hc1, app_assoc|by apply Forall_app].
Qed.

Lemma read_only_getTodoFiles : keeps read_only getTodoFiles.
Proof.
  intros w. split; [apply getTodoFiles_quiet|]. exists [Readdir].
  split; [reflexivity|by repeat constructor].
Qed.

Lemma read_only_readTodosFile file : keeps read_only (readTodosFile file).
Proof.
  intros w. split; [apply readTodosFile_quiet|].
  unfold readTodosFile, after, bind, existsSync, fs_readFile, console_error,
    ret.
  destruct (lookup_file file (dir w)) as [[todos|]|] eqn:Hfile; simpl;
    rewrite ?Hfile; simpl;
    (eexists; split; [rewrite <- ?app_assoc; reflexivity|by repeat constructor]).
Qed.

(** X1.  The read paths of the store, [getAllTodos], [getTodoById] and
    [filterTodos], and the tools [getAllTasks], [getTask] and [filterTasks]
    that call them, write nothing: whatever the store holds, corrupt files
    included, they leave every file of the directory as it is, draw no
    random number, do not read the clock, and the calls they make to [fs]
    are [readdir], [existsSync] and [readFile] only. *)
Theorem reading_writes_nothing :
  keeps read_only getAllTodos
  ∧ (∀ id0, keeps read_only (getTodoById id0))
  ∧ (∀ filters, keeps read_only (filterTodos filters))
  ∧ keeps read_only getAllTasks
  ∧ (∀ id0, keeps read_only (getTask id0))
  ∧ (∀ filters, keeps read_only (filterTasks filters)).
Proof.
  pose proof read_only_refl. pose proof read_only_trans.
  pose proof read_only_getTodoFiles. pose proof read_only_readTodosFile.
  split_and!; intros.
  - by apply keeps_getAllTodos.
  - by apply keeps_getTodoById.
  - by apply keeps_filterTodos.
  - by apply keeps_getAllTasks.
  - by apply keeps_getTask.
  - by apply keeps_filterTasks.
Qed.

(** ** A store whose files hold records logs nothing *)

Lemma silent_refl w : silent w w.
Proof. by intros Hw. Qed.

Lemma silent_trans w1 w2 w3 : silent w1 w2 → silent w2 w3 → silent w1 w3.
Proof.
  intros H1 H2 Hw. destruct (H1 Hw) as [Hc1 Hw2].
  destruct (H2 Hw2) as [Hc2 Hw3]. split; [congruence|done].
Qed.

Lemma silent_same w w' : dir w' = dir w → console w' = console w → silent w w'.
Proof. intros Hd Hc Hw. split; [done|]. unfold holds_records. by rewrite Hd. Qed.

Lemma silent_getTodoFiles : keeps silent getTodoFiles.
Proof. intros w. by apply silent_same. Qed.

Lemma silent_readTodosFile file : keeps silent (readTodosFile file).
Proof.
  intros w Hw. split.
  - specialize (Hw file).
    unfold readTodosFile, after, bind, existsSync, fs_readFile, console_error,
      ret.
    destruct (lookup_file file (dir w)) as [[todos|]|] eqn:Hfile; simpl;
      rewrite ?Hfile; simpl; done.
  - unfold holds_records. by destruct (readTodosFile_quiet file w) as [-> _].
Qed.

Lemma silent_Date_toISOString : keeps silent Date_toISOString.
Proof. intros w. by apply silent_same. Qed.

Lemma silent_generateUUID : keeps silent generateUUID.
Proof.
  intros w. destruct (generateUUID_after w) as (Hd & Hc & _).
  by apply silent_same.
Qed.

Lemma silent_writeTodosFile file todos : keeps silent (writeTodosFile file todos).
Proof.
  intros w Hw. split; [reflexivity|]. intros g.
  change (dir (after (writeTodosFile file todos) w))
    with (store_file file (Json todos) (dir w)).
  rewrite lookup_store_file. destruct (String.eqb file g); [done|apply Hw].
Qed.

(** A directory in which no entry is [Garbage] holds arrays of records. *)
Lemma holds_records_check w :
  forallb (λ entry, match entry.2 with Json _ => true | Garbage => false end)
          (dir w) = true →
  holds_records w.
Proof.
  unfold holds_records. induction (dir w) as [|[name text] d IH]; [done|].
  cbn [forallb snd lookup_file]. intros [Htext Hd]%andb_prop file.
  destruct (String.eqb name file); [by destruct text|by apply IH].
Qed.

(** X2.  On a store every file of which holds an array of records, which
    are the only texts the store writes, no call of a tool logs anything to
    the console, and every file still holds an array of records afterwards:
    with the file system available, the [console.error] of
    [readTodosFile] is reached only through a file on which [JSON.parse]
    throws.  (A file that parses to something else than an array, '{}' for
    one, is no array of records: there the handlers do log.) *)
Theorem healthy_store_logs_nothing {call} w :
  tool_call call → holds_records w →
  console (after call w) = console w ∧ holds_records (after call w).
Proof.
  pose proof silent_refl. pose proof silent_trans.
  pose proof silent_getTodoFiles. pose proof silent_readTodosFile.
  pose proof silent_Date_toISOString. pose proof silent_generateUUID.
  pose proof silent_writeTodosFile.
  intros Hcall. revert w. change (keeps silent call).
  destruct Hcall.
  - by apply keeps_getAllTasks.
  - by apply keeps_getTask.
  - by apply keeps_createTask.
  - by apply keeps_createTask_ts.
  - by apply keeps_updateTask.
  - by apply keeps_deleteTask.
  - by apply keeps_filterTasks.
Qed.

Lemma healthy_store_logs_nothing_witness :
  let call := createTask "review" None None (Some "docs") None in
  console (after call two_tasks_world) = console two_tasks_world
  ∧ holds_records (after call two_tasks_world).
Proof.
  intros call. apply healthy_store_logs_nothing.
  - apply call_createTask.
  - apply holds_records_check. vm_compute. reflexivity.
Defined.

(** ** Finding is listing *)

Lemma list_find_head {A} (P : A → Prop) `{∀ x, Decision (P x)} (l : list A) :
  snd <$> list_find P l = head (filter P l).
Proof.
  induction l as [|x l IH]; [done|].
  cbn [list_find]. rewrite filter_cons. destruct (decide (P x)); [done|].
  rewrite <- IH. by destruct (list_find P l) as [[i y]|].
Qed.

Lemma locate_head id0 d files :
  snd <$> locate id0 d files
  = head (with_id id0 (flat_map (λ file, read_todos file d) files)).
Proof.
  unfold with_id. induction files as [|g rest IH]; [done|].
  cbn [locate flat_map]. rewrite filter_app.
  pose proof (list_find_head (λ todo, id todo = id0) (read_todos g d)) as Hg.
  fold (findIndex id0 (read_todos g d)) in Hg.
  destruct (findIndex id0 (read_todos g d)) as [[i t]|].
  - destruct (filter _ (read_todos g d)); [done|]. exact Hg.
  - destruct (filter _ (read_todos g d)); [exact IH|done].
Qed.

Lemma with_id_nil id0 todos :
  with_id id0 todos = [] ↔ id0 ∉ map id todos.
Proof.
  unfold with_id. split.
  - intros Hnil (todo & Hid & Hin)%list_elem_of_In%in_map_iff.
    by apply (filter_nil_not_elem_of _ _ todo Hnil), list_elem_of_In.
  - intros Hout.
    destruct (filter _ todos) as [|todo rest] eqn:Hfilter; [done|].
    assert (todo ∈ filter (λ todo, id todo = id0) todos) as Hin
      by (rewrite Hfilter; apply list_elem_of_here).
    apply list_elem_of_filter in Hin as [<- Hin]. destruct Hout.
    by apply list_elem_of_In, in_map, list_elem_of_In.
Qed.

Lemma getTodoById_head id0 w :
  result (getTodoById id0) w = head (with_id id0 (result getAllTodos w)).
Proof. rewrite getTodoById_result, getAllTodos_result. apply locate_head. Qed.

(** X3.  [getTodoById] and [getAllTodos] agree: the record that
    [getTodoById] returns for an id is the first record with that id in the
    list that [getAllTodos] returns, and it returns [null] exactly when
    that list has no record with the id.  So [getTask] finds what
    [getAllTasks] lists, and of two records with one id the one listed
    first. *)
Theorem getTodoById_first_listed id0 w :
  result (getTodoById id0) w = head (with_id id0 (result getAllTodos w))
  ∧ (result (getTodoById id0) w = None
     ↔ id0 ∉ map id (result getAllTodos w))
  ∧ result (getTask id0) w
    = match head (with_id id0 (result getAllTodos w)) with
      | Some todo => Task todo
      | None => TaskNotFound id0
      end.
Proof.
  split_and!.
  - apply getTodoById_head.
  - rewrite getTodoById_head, head_None. apply with_id_nil.
  - rewrite getTask_run. by rewrite getTodoById_head.
Qed.

(** ** Files that are not [.json] files *)

Lemma flat_map_ext_elem {A B} (h h' : A → list B) l :
  (∀ g, g ∈ l → h' g = h g) → flat_map h' l = flat_map h l.
Proof.
  induction l as [|g l IH]; [done|]. intros Hl. cbn [flat_map].
  rewrite Hl by apply list_elem_of_here. rewrite IH; [done|].
  intros g' Hg'. apply Hl. by apply list_elem_of_further.
Qed.

Lemma todo_files_other file text d :
  endsWith file ".json" = false →
  todo_files (store_file file text d) = todo_files d.
Proof.
  intros Hjson. unfold todo_files. rewrite sorted_names_store_file.
  case_bool_decide; [done|]. apply filter_insert_name_out.
  rewrite Hjson. by intros [].
Qed.

Lemma all_todos_other file text d :
  endsWith file ".json" = false →
  all_todos (store_file file text d) = all_todos d.
Proof.
  intros Hjson. unfold all_todos. rewrite todo_files_other by done.
  apply flat_map_ext_elem. intros g [_ Hg]%todo_files_json.
  unfold read_todos. rewrite lookup_store_file.
  destruct (String.eqb_spec file g) as [->|]; [congruence|done].
Qed.

(** X4.  The store reads the files of the directory whose name ends in
    [.json] and no other: whatever another program puts in a file with
    another name, records included, [getAllTodos], [getTodoById] and
    [filterTodos] return what they returned without it. *)
Theorem other_files_are_ignored file text w :
  endsWith file ".json" = false →
  result getAllTodos (with_file file text w) = result getAllTodos w
  ∧ (∀ id0, result (getTodoById id0) (with_file file text w)
            = result (getTodoById id0) w)
  ∧ (∀ filters, result (filterTodos filters) (with_file file text w)
                = result (filterTodos filters) w).
Proof.
  intros Hjson.
  assert (result getAllTodos (with_file file text w) = result getAllTodos w)
    as Hall.
  { rewrite !getAllTodos_result. by apply all_todos_other. }
  split_and!; [done| |].
  - intros id0. by rewrite !getTodoById_head, Hall.
  - intros filters. by rewrite !filterTodos_result, Hall.
Qed.

Lemma other_files_are_ignored_witness :
  let notes := Json [mkTodo "1" "draft" "pending" "low" None None "" ""] in
  result getAllTodos (with_file "notes.txt" notes two_tasks_world)
  = result getAllTodos two_tasks_world.
Proof.
  intros notes.
  exact (proj1 (other_files_are_ignored "notes.txt" notes two_tasks_world
                  eq_refl)).
Defined.

(** ** The default file *)

Lemma lookup_file_None file d : lookup_file file d = None → file ∉ map fst d.
Proof.
  induction d as [|[name old] d IH]; cbn [lookup_file map fst].
  - intros _. apply not_elem_of_nil.
  - destruct (String.eqb_spec name file) as [->|Hname]; [done|].
    intros Hd. apply not_elem_of_cons. split; [congruence|by apply IH].
Qed.

(** A new file holding the empty array adds no record to the store. *)
Lemma all_todos_new_empty file d :
  lookup_file file d = None →
  all_todos (store_file file (Json []) d) = all_todos d.
Proof.
  intros Hnone%lookup_file_None.
  destruct (endsWith file ".json") eqn:Hjson; [|by apply all_todos_other].
  unfold all_todos.
  rewrite todo_files_store_file, bool_decide_eq_false_2 by done.
  destruct (insert_name_split file (todo_files d)) as (l1 & l2 & Hsplit & ->).
  assert (file ∉ todo_files d) as Hout by (by intros [? _]%todo_files_json).
  rewrite Hsplit in Hout |- *. apply not_elem_of_app in Hout as [Hout1 Hout2].
  rewrite !flat_map_app. cbn [flat_map].
  by rewrite !flat_map_read_todos_others, read_todos_store_file,
    String.eqb_refl by done.
Qed.

Lemma ensureDirectoriesExist_run w :
  result ensureDirectoriesExist w
  = (if negb (bool_decide (is_Some (lookup_file DEFAULT_TODOS_FILE (dir w))))
     then fs_writeFile DEFAULT_TODOS_FILE (Json []) else ret tt)
  ∧ dir (after ensureDirectoriesExist w) = dir w.
Proof. done. Qed.

Lemma constructed_dir w :
  dir (constructed w)
  = match lookup_file DEFAULT_TODOS_FILE (dir w) with
    | Some _ => dir w
    | None => store_file DEFAULT_TODOS_FILE (Json []) (dir w)
    end.
Proof.
  unfold constructed. destruct (ensureDirectoriesExist_run w) as [-> Hdir].
  destruct (lookup_file DEFAULT_TODOS_FILE (dir w)) eqn:Hfile.
  - rewrite bool_decide_eq_true_2 by done. exact Hdir.
  - rewrite bool_decide_eq_false_2 by (by intros [? ?]).
    cbn [negb after snd fs_writeFile dir]. by rewrite Hdir.
Qed.

(** X5.  [ensureDirectoriesExist], which the constructor of the store
    runs, only looks whether the default file exists: it changes no file
    itself, and starts a write of the empty array to the default file when
    there is none.  Once that write has completed, nothing else having
    touched the directory, the default file exists, every other file holds
    what it held, and a default file that existed is left as it was,
    whatever it holds; the store lists the records it listed before; and
    constructing the store again starts no write and changes nothing. *)
Theorem ensureDirectoriesExist_adds_no_record w :
  dir (after ensureDirectoriesExist w) = dir w
  ∧ (∀ file,
       lookup_file file (dir (constructed w))
       = match lookup_file DEFAULT_TODOS_FILE (dir w) with
         | Some _ => lookup_file file (dir w)
         | None =>
             if String.eqb DEFAULT_TODOS_FILE file then Some (Json [])
             else lookup_file file (dir w)
         end)
  ∧ is_Some (lookup_file DEFAULT_TODOS_FILE (dir (constructed w)))
  ∧ result getAllTodos (constructed w) = result getAllTodos w
  ∧ (∀ id0, result (getTodoById id0) (constructed w)
            = result (getTodoById id0) w)
  ∧ result ensureDirectoriesExist (constructed w) = ret tt
  ∧ dir (constructed (constructed w)) = dir (constructed w).
Proof.
  assert (is_Some (lookup_file DEFAULT_TODOS_FILE (dir (constructed w))))
    as Hsome.
  { rewrite constructed_dir.
    destruct (lookup_file DEFAULT_TODOS_FILE (dir w)) eqn:Hfile.
    - by rewrite Hfile.
    - by rewrite lookup_store_file, String.eqb_refl. }
  assert (result getAllTodos (constructed w) = result getAllTodos w) as Hall.
  { rewrite !getAllTodos_result, constructed_dir.
    destruct (lookup_file DEFAULT_TODOS_FILE (dir w)) eqn:Hfile; [done|].
    by apply all_todos_new_empty. }
  split_and!; [done| |done|done| | |].
  - intros file. rewrite constructed_dir.
    destruct (lookup_file DEFAULT_TODOS_FILE (dir w)); [done|].
    apply lookup_store_file.
  - intros id0. by rewrite !getTodoById_head, Hall.
  - destruct (ensureDirectoriesExist_run (constructed w)) as [-> _].
    by rewrite bool_decide_eq_true_2.
  - rewrite (constructed_dir (constructed w)). by destruct Hsome as [text ->].
Qed.

(** ** The records that a write leaves alone *)

Section filter_writes.

Context (P : Todo → Prop) `{∀ todo, Decision (P todo)}.

Lemma filter_flat_map_ext {A} (h h' : A → list Todo) l :
  (∀ g, filter P (h' g) = filter P (h g)) →
  filter P (flat_map h' l) = filter P (flat_map h l).
Proof.
  intros Hg. induction l as [|g l IH]; [done|].
  cbn [flat_map]. by rewrite !filter_app, Hg, IH.
Qed.

(** Writing to a file records that pass the test as those it held do
    leaves the records of the store that pass the test as they are. *)
Lemma filter_all_todos_store_file file todos d :
  endsWith file ".json" = true →
  filter P todos = filter P (read_todos file d) →
  filter P (all_todos (store_file file (Json todos) d)) = filter P (all_todos d).
Proof.
  intros Hjson Hsame. unfold all_todos. rewrite todo_files_store_file by done.
  assert (∀ g, filter P (read_todos g (store_file file (Json todos) d))
               = filter P (read_todos g d)) as Hg.
  { intros g. rewrite read_todos_store_file.
    by destruct (String.eqb_spec file g) as [<-|]. }
  case_bool_decide as Hin.
  - by apply filter_flat_map_ext.
  - destruct (insert_name_split file (todo_files d))
      as (l1 & l2 & -> & ->).
    rewrite !flat_map_app, !filter_app. cbn [flat_map].
    rewrite filter_app, Hg, (read_todos_missing _ _ Hin), filter_nil.
    cbn [app]. f_equal; by apply filter_flat_map_ext.
Qed.

Lemma filter_insert_same (todos : list Todo) (index : nat) old new :
  todos !! index = Some old → ¬ P old → ¬ P new →
  filter P (<[index := new]> todos) = filter P todos.
Proof.
  intros Hlook Hold Hnew.
  rewrite insert_take_drop by (by eapply lookup_lt_Some).
  rewrite <- (take_drop_middle todos index old Hlook) at 3.
  by rewrite !filter_app, !filter_cons_False.
Qed.

Lemma filter_delete_same (todos : list Todo) (index : nat) old :
  todos !! index = Some old → ¬ P old →
  filter P (delete index todos) = filter P todos.
Proof.
  intros Hlook Hold. rewrite delete_take_drop.
  rewrite <- (take_drop_middle todos index old Hlook) at 3.
  by rewrite !filter_app, filter_cons_False.
Qed.

Lemma filter_snoc_same (todos : list Todo) new :
  ¬ P new → filter P (todos ++ [new]) = filter P todos.
Proof.
  intros Hnew. by rewrite filter_app, filter_cons_False, filter_nil, app_nil_r.
Qed.

Lemma filter_getAllTodos_after_write file todos w w' :
  endsWith file ".json" = true →
  dir w' = store_file file (Json todos) (dir w) →
  filter P todos = filter P (read_todos file (dir w)) →
  filter P (result getAllTodos w') = filter P (result getAllTodos w).
Proof.
  intros Hjson Hdir Hsame. rewrite !getAllTodos_result, Hdir.
  by apply filter_all_todos_store_file.
Qed.

End filter_writes.

(** When the records written to a file differ from those it held only in
    records with the id [id0], the records with other ids are untouched. *)
Lemma others_untouched_after_write id0 file todos w w' :
  endsWith file ".json" = true →
  dir w' = store_file file (Json todos) (dir w) →
  (∀ (P : Todo → Prop) (dec : ∀ todo, Decision (P todo)),
     (∀ todo, id todo = id0 → ¬ P todo) →
     filter P todos = filter P (read_todos file (dir w))) →
  others_untouched id0 w w'.
Proof.
  intros Hjson Hdir Hsame. split.
  - unfold without_id.
    apply (filter_getAllTodos_after_write _ file todos); [done|done|].
    apply Hsame. intros todo Hid Hne. by apply Hne.
  - intros id' Hne. rewrite !getTodoById_head. unfold with_id.
    rewrite (filter_getAllTodos_after_write _ file todos w w'); [done|done|done|].
    apply Hsame. intros todo Hid Hid'. congruence.
Qed.

Lemma others_untouched_quiet id0 w w' : quiet w w' → others_untouched id0 w w'.
Proof.
  intros (Hdir & _). split.
  - by rewrite !getAllTodos_result, Hdir.
  - intros id' _. by rewrite !getTodoById_result, Hdir.
Qed.

Lemma created_in_others_untouched file newTodo w w' :
  endsWith file ".json" = true →
  created_in file newTodo w w' →
  newTodo ∈ result getAllTodos w' ∧ others_untouched (id newTodo) w w'.
Proof.
  intros Hjson (Hdir & _). split.
  - rewrite getAllTodos_result, Hdir. apply (read_todos_all file); [done|].
    rewrite read_todos_store_file, String.eqb_refl.
    apply elem_of_app. right. apply list_elem_of_here.
  - apply (others_untouched_after_write _ file _ _ _ Hjson Hdir).
    intros P dec HP. apply filter_snoc_same. by apply HP.
Qed.

(** X6.  [createTodo], in either source, adds its record to the store and
    touches no other: the new record is listed by [getAllTodos] afterwards,
    the records with another id are listed as before, in the same order,
    and [getTodoById] answers for every other id what it answered before.
    No condition on the store is needed: it holds when files do not parse
    and when ids collide. *)
Theorem createTodo_touches_no_other_record w :
  (∀ todoData,
     result (createTodo todoData) w
       ∈ result getAllTodos (after (createTodo todoData) w)
     ∧ others_untouched (id (result (createTodo todoData) w)) w
                        (after (createTodo todoData) w))
  ∧ (∀ todoData,
       result (createTodo_ts todoData) w
         ∈ result getAllTodos (after (createTodo_ts todoData) w)
       ∧ others_untouched (id (result (createTodo_ts todoData) w)) w
                          (after (createTodo_ts todoData) w)).
Proof.
  split; intros todoData.
  - exact (created_in_others_untouched _ _ _ _ (todosFileFor_json _)
             (createTodo_after todoData w)).
  - exact (created_in_others_untouched _ _ _ _ (todosFileFor_json _)
             (createTodo_ts_after todoData w)).
Qed.

Lemma wrote_insert_others_untouched id0 file index old new ticks w w' :
  locate id0 (dir w) (todo_files (dir w)) = Some (file, index, old) →
  wrote file (<[index := new]> (read_todos file (dir w))) ticks w w' →
  id new = id0 →
  others_untouched id0 w w'.
Proof.
  intros [Hfile [Hlook Hid]%findIndex_Some]%locate_Some (Hdir & _) Hnew.
  apply todo_files_json in Hfile as [_ Hjson].
  apply (others_untouched_after_write _ file _ _ _ Hjson Hdir).
  intros P dec HP. apply (filter_insert_same _ _ _ old); auto.
Qed.

Lemma wrote_delete_others_untouched id0 file index old w w' :
  locate id0 (dir w) (todo_files (dir w)) = Some (file, index, old) →
  wrote file (delete index (read_todos file (dir w))) 0 w w' →
  others_untouched id0 w w'.
Proof.
  intros [Hfile [Hlook Hid]%findIndex_Some]%locate_Some (Hdir & _).
  apply todo_files_json in Hfile as [_ Hjson].
  apply (others_untouched_after_write _ file _ _ _ Hjson Hdir).
  intros P dec HP. apply (filter_delete_same _ _ _ old); auto.
Qed.

(** X7.  [updateTask] and [deleteTask], soft or hard, touch no record but
    those with the id they are given: whatever the arguments and whether or
    not the id is found, the records with another id are listed by
    [getAllTodos] as before, in the same order, and [getTodoById] answers
    for every other id what it answered before. *)
Theorem update_and_delete_touch_no_other_record id0 w :
  (∀ content0 status0 priority0 project0 conversation0,
     others_untouched id0 w
       (after (updateTask id0 content0 status0 priority0 project0
                          conversation0) w))
  ∧ (∀ hardDelete,
       others_untouched id0 w (after (deleteTask id0 hardDelete) w)).
Proof.
  split.
  - intros content0 status0 priority0 project0 conversation0.
    destruct (updateTask_run id0 content0 status0 priority0 project0
                conversation0 w) as [_ Hafter].
    cbv zeta in Hafter. rewrite Hafter.
    set (updates := mkPartial _ _ _ _ _ _ _ _).
    pose proof (updateTodo_spec id0 updates w) as Hspec.
    destruct (locate id0 (dir w) (todo_files (dir w)))
      as [[[file index] old]|] eqn:Hloc.
    + destruct Hspec as [_ Hwrote].
      eapply wrote_insert_others_untouched; [exact Hloc|exact Hwrote|].
      apply locate_Some in Hloc as [_ [_ Hid]%findIndex_Some]. exact Hid.
    + destruct Hspec as [_ Hquiet]. by apply others_untouched_quiet.
  - intros hardDelete.
    destruct (deleteTask_run id0 hardDelete w) as [_ ->].
    pose proof (deleteTodo_spec id0 (default false hardDelete) w) as Hspec.
    destruct (locate id0 (dir w) (todo_files (dir w)))
      as [[[file index] old]|] eqn:Hloc.
    + unfold delete_outcome in Hspec.
      destruct (default false hardDelete); destruct Hspec as [_ Hwrote].
      * by eapply wrote_delete_others_untouched.
      * eapply wrote_insert_others_untouched; [exact Hloc|exact Hwrote|].
        apply locate_Some in Hloc as [_ [_ Hid]%findIndex_Some]. exact Hid.
    + destruct Hspec as [_ Hquiet]. by apply others_untouched_quiet.
Qed.

(** ** The entries of the directory *)

Lemma wrote_names file todos ticks w w' :
  file ∈ map fst (dir w) → wrote file todos ticks w w' →
  map fst (dir w') = map fst (dir w).
Proof.
  intros Hin (Hdir & _). by rewrite Hdir, names_store_file, bool_decide_eq_true_2.
Qed.

Lemma locate_names id0 d file index todo :
  locate id0 d (todo_files d) = Some (file, index, todo) → file ∈ map fst d.
Proof. by intros [[Hin _]%todo_files_json _]%locate_Some. Qed.

Lemma updateTodo_names id0 updates w :
  map fst (dir (after (updateTodo id0 updates) w)) = map fst (dir w).
Proof.
  pose proof (updateTodo_spec id0 updates w) as Hspec.
  destruct (locate id0 (dir w) (todo_files (dir w)))
    as [[[file index] old]|] eqn:Hloc.
  - destruct Hspec as [_ Hwrote]. eapply wrote_names; [|exact Hwrote].
    by eapply locate_names.
  - destruct Hspec as [_ (Hdir & _)]. by rewrite Hdir.
Qed.

Lemma deleteTodo_names id0 hardDelete w :
  map fst (dir (after (deleteTodo id0 hardDelete) w)) = map fst (dir w).
Proof.
  pose proof (deleteTodo_spec id0 hardDelete w) as Hspec.
  destruct (locate id0 (dir w) (todo_files (dir w)))
    as [[[file index] old]|] eqn:Hloc.
  - unfold delete_outcome in Hspec.
    destruct hardDelete; destruct Hspec as [_ Hwrote];
      (eapply wrote_names; [|exact Hwrote]); by eapply locate_names.
  - destruct Hspec as [_ (Hdir & _)]. by rewrite Hdir.
Qed.

Lemma same_names_listed d d' :
  map fst d' = map fst d → sorted_names d' = sorted_names d.
Proof. unfold sorted_names. by intros ->. Qed.

Lemma created_in_listed file newTodo w w' :
  created_in file newTodo w w' →
  result fs_readdir w'
  = if bool_decide (file ∈ result fs_readdir w) then result fs_readdir w
    else insert_name file (result fs_readdir w).
Proof.
  intros (Hdir & _).
  change (sorted_names (dir w')
          = if bool_decide (file ∈ sorted_names (dir w))
            then sorted_names (dir w)
            else insert_name file (sorted_names (dir w))).
  rewrite Hdir, sorted_names_store_file.
  by rewrite (bool_decide_ext _ _ (elem_of_sorted_names file (dir w))).
Qed.

Lemma created_in_well_formed file newTodo w w' :
  created_in file newTodo w w' → well_formed w → well_formed w'.
Proof.
  unfold well_formed. intros (Hdir & _) Hw. rewrite Hdir.
  by apply store_file_well_formed.
Qed.

Lemma quiet_read_tools :
  keeps quiet getAllTasks
  ∧ (∀ id0, keeps quiet (getTask id0))
  ∧ (∀ filters, keeps quiet (filterTasks filters)).
Proof.
  pose proof quiet_refl. pose proof quiet_trans.
  pose proof getTodoFiles_quiet. pose proof readTodosFile_quiet.
  split_and!; intros.
  - by apply keeps_getAllTasks.
  - by apply keeps_getTask.
  - by apply keeps_filterTasks.
Qed.

(** X8.  What [fs.readdir] lists after a call of a tool.  [createTask]
    leaves the list as it is when the file of the project exists, and
    otherwise adds that file, and no other, at its place in the order of
    names; [updateTask] and [deleteTask] leave the list as it is in every
    case, so a file whose last record is hard-deleted stays, and an update
    that changes [project] moves nothing to another file; the read tools
    leave the whole directory as it is.  So no tool removes an entry of
    the directory, and the list is sorted as it was. *)
Theorem directory_entries w :
  (∀ content0 status0 priority0 project0 conversation0,
     let listed after_call :=
       result fs_readdir after_call
       = if bool_decide (todosFileFor project0 ∈ result fs_readdir w)
         then result fs_readdir w
         else insert_name (todosFileFor project0) (result fs_readdir w) in
     listed (after (createTask content0 status0 priority0 project0
                               conversation0) w)
     ∧ listed (after (createTask_ts content0 status0 priority0 project0
                                    conversation0) w))
  ∧ (∀ id0 content0 status0 priority0 project0 conversation0,
       result fs_readdir (after (updateTask id0 content0 status0 priority0
                                            project0 conversation0) w)
       = result fs_readdir w)
  ∧ (∀ id0 hardDelete,
       result fs_readdir (after (deleteTask id0 hardDelete) w)
       = result fs_readdir w)
  ∧ dir (after getAllTasks w) = dir w
  ∧ (∀ id0, dir (after (getTask id0) w) = dir w)
  ∧ (∀ filters, dir (after (filterTasks filters) w) = dir w)
  ∧ (∀ file files, StronglySorted name_le files →
       sublist files (insert_name file files)
       ∧ StronglySorted name_le (insert_name file files))
  ∧ StronglySorted name_le (result fs_readdir w).
Proof.
  split_and!.
  - intros content0 status0 priority0 project0 conversation0 listed. split.
    + unfold listed.
      destruct (createTask_run content0 status0 priority0 project0
                  conversation0 w) as [_ ->].
      set (todoData := mkData _ _ _ _ _).
      exact (created_in_listed _ _ _ _ (createTodo_after todoData w)).
    + unfold listed.
      destruct (createTask_ts_run content0 status0 priority0 project0
                  conversation0 w) as [_ ->].
      set (todoData := mkPartial _ _ _ _ _ _ _ _).
      exact (created_in_listed _ _ _ _ (createTodo_ts_after todoData w)).
  - intros id0 content0 status0 priority0 project0 conversation0.
    destruct (updateTask_run id0 content0 status0 priority0 project0
                conversation0 w) as [_ Hafter].
    cbv zeta in Hafter. rewrite Hafter.
    apply same_names_listed, updateTodo_names.
  - intros id0 hardDelete. destruct (deleteTask_run id0 hardDelete w) as [_ ->].
    apply same_names_listed, deleteTodo_names.
  - apply quiet_read_tools.
  - intros id0. apply quiet_read_tools.
  - intros filters. apply quiet_read_tools.
  - intros file files Hfiles. split; [|by apply insert_name_sorted].
    destruct (insert_name_split file files) as (l1 & l2 & -> & ->).
    apply sublist_app; [done|]. by apply sublist_cons.
  - apply sorted_names_sorted.
Qed.

(** X9.  The entries of the todos directory have distinct names, and no
    call of a tool changes that: it is an invariant of the store. *)
Theorem tool_calls_keep_names_distinct {call} w :
  tool_call call → well_formed w → well_formed (after call w).
Proof.
  intros Hcall Hw. unfold well_formed.
  destruct Hcall.
  - by destruct (proj1 quiet_read_tools w) as (-> & _).
  - by destruct (proj1 (proj2 quiet_read_tools) id0 w) as (-> & _).
  - destruct (createTask_run content0 status0 priority0 project0
                conversation0 w) as [_ ->].
    set (todoData := mkData _ _ _ _ _).
    exact (created_in_well_formed _ _ _ _ (createTodo_after todoData w) Hw).
  - destruct (createTask_ts_run content0 status0 priority0 project0
                conversation0 w) as [_ ->].
    set (todoData := mkPartial _ _ _ _ _ _ _ _).
    exact (created_in_well_formed _ _ _ _ (createTodo_ts_after todoData w) Hw).
  - destruct (updateTask_run id0 content0 status0 priority0 project0
                conversation0 w) as [_ Hafter].
    cbv zeta in Hafter. by rewrite Hafter, updateTodo_names.
  - destruct (deleteTask_run id0 hardDelete w) as [_ ->].
    by rewrite deleteTodo_names.
  - by destruct (proj2 (proj2 quiet_read_tools) filters w) as (-> & _).
Qed.

Lemma tool_calls_keep_names_distinct_witness :
  well_formed (after (createTask "review" None None (Some "docs") None)
                     two_tasks_world).
Proof.
  apply tool_calls_keep_names_distinct.
  - apply call_createTask.
  - apply (bool_decide_unpack _). vm_compute. exact I.
Defined.

(** ** An id that no record has *)

(** X10.  [updateTask] on an id that [getTodoById] does not find answers
    that the task was not found, whatever the other arguments, and does
    nothing else: no file is written or created, the clock is not read, no
    random number is drawn.  [updateTodo] itself returns [null] then, for
    every [updates] object. *)
Theorem updateTask_not_found
  id0 content0 status0 priority0 project0 conversation0 w :
  result (getTodoById id0) w = None →
  let call := updateTask id0 content0 status0 priority0 project0 conversation0 in
  result call w = TaskNotFound id0
  ∧ quiet w (after call w)
  ∧ ∀ updates, result (updateTodo id0 updates) w = None
               ∧ quiet w (after (updateTodo id0 updates) w).
Proof.
  intros Hnone call. rewrite getTodoById_result, fmap_None in Hnone.
  assert (∀ updates, result (updateTodo id0 updates) w = None
                     ∧ quiet w (after (updateTodo id0 updates) w)) as Hstore.
  { intros updates. pose proof (updateTodo_spec id0 updates w) as Hspec.
    by rewrite Hnone in Hspec. }
  destruct (updateTask_run id0 content0 status0 priority0 project0
              conversation0 w) as [Hres Hafter].
  fold call in Hres, Hafter. rewrite Hres, Hafter.
  set (updates := mkPartial _ _ _ _ _ _ _ _) in *.
  destruct (Hstore updates) as [-> Hquiet]. done.
Qed.

Lemma updateTask_not_found_witness :
  let call := updateTask "no such id" None (Some "completed") None None None in
  result call two_tasks_world = TaskNotFound "no such id"
  ∧ quiet two_tasks_world (after call two_tasks_world).
Proof.
  intros call.
  destruct (updateTask_not_found "no such id" None (Some "completed") None None
              None two_tasks_world) as (Hres & Hquiet & _).
  { vm_compute. reflexivity. }
  split; [exact Hres|exact Hquiet].
Defined.

(** ** What a change does to the list of all records *)

Lemma locate_split id0 d files file index todo :
  locate id0 d files = Some (file, index, todo) →
  ∃ l1 l2,
    files = l1 ++ file :: l2
    ∧ Forall (λ g, findIndex id0 (read_todos g d) = None) l1.
Proof.
  induction files as [|g rest IH]; cbn [locate]; [done|].
  destruct (findIndex id0 (read_todos g d)) as [[i t]|] eqn:Hg.
  - intros [= -> -> ->]. by exists [], rest.
  - intros (l1 & l2 & -> & Hl1)%IH. exists (g :: l1), l2.
    split; [done|by apply Forall_cons].
Qed.

(** The record that the id locates splits the list of all records in the
    records before it, none of which has the id, and those after it;
    rewriting its file with the record replaced or taken out changes the
    list at that place and nowhere else. *)
Lemma all_todos_split id0 d file index old :
  NoDup (map fst d) →
  locate id0 d (todo_files d) = Some (file, index, old) →
  ∃ before rest,
    all_todos d = before ++ old :: rest
    ∧ Forall (λ todo, id todo ≠ id0) before
    ∧ (∀ new,
         all_todos (store_file file (Json (<[index := new]> (read_todos file d))) d)
         = before ++ new :: rest)
    ∧ all_todos (store_file file (Json (delete index (read_todos file d))) d)
      = before ++ rest.
Proof.
  intros Hnames Hloc.
  pose proof (locate_Some _ _ _ _ _ _ Hloc) as [Hfile Hfound].
  pose proof Hfile as [Hin Hjson]%todo_files_json.
  destruct (locate_split _ _ _ _ _ _ Hloc) as (l1 & l2 & Hsplit & Hnone).
  assert (NoDup (todo_files d)) as Hfiles by by apply todo_files_NoDup.
  rewrite Hsplit in Hfiles.
  apply NoDup_app in Hfiles as (_ & Hl1 & [Hl2 _]%NoDup_cons).
  assert (file ∉ l1) as Hout1.
  { intros Hl. by apply (Hl1 file); [|apply list_elem_of_here]. }
  unfold findIndex in Hfound.
  apply list_find_Some in Hfound as (Hlook & Hid & Hfirst).
  set (todos := read_todos file d) in *.
  assert (∀ todos',
            all_todos (store_file file (Json todos') d)
            = flat_map (λ g, read_todos g d) l1 ++ todos'
              ++ flat_map (λ g, read_todos g d) l2) as Hafter.
  { intros todos'. unfold all_todos.
    rewrite todo_files_store_file, bool_decide_eq_true_2 by done.
    rewrite Hsplit, flat_map_app. cbn [flat_map].
    by rewrite !flat_map_read_todos_others, read_todos_store_file,
      String.eqb_refl by done. }
  exists (flat_map (λ g, read_todos g d) l1 ++ take index todos),
         (drop (S index) todos ++ flat_map (λ g, read_todos g d) l2).
  split_and!.
  - unfold all_todos. rewrite Hsplit, flat_map_app. cbn [flat_map].
    fold todos. rewrite <- (take_drop_middle todos index old Hlook) at 1.
    by rewrite <- !app_assoc.
  - apply Forall_app. split.
    + apply Forall_forall.
      intros todo (g & Hg & Htodo)%list_elem_of_In%in_flat_map.
      apply list_elem_of_In in Hg, Htodo.
      rewrite Forall_forall in Hnone. specialize (Hnone g Hg).
      apply findIndex_None in Hnone. rewrite Forall_forall in Hnone.
      by apply Hnone.
    + apply Forall_lookup. intros j todo [Hj Hlt]%lookup_take_Some.
      by apply (Hfirst j).
  - intros new. rewrite Hafter, insert_take_drop by (by eapply lookup_lt_Some).
    by rewrite <- !app_assoc.
  - rewrite Hafter, delete_take_drop. by rewrite <- !app_assoc.
Qed.

(** X11.  On a directory whose entries have distinct names, a change made
    through an id changes the list of all records at one place.  The record
    [old] that [getTodoById] finds under [id0] is the first of the list
    with that id; [updateTask] puts the record it answers with in the place
    of [old], so does the soft [deleteTask] with the cancelled record, and
    the hard [deleteTask] takes [old] out; the records before and after it
    stay, in their order.  So an update or a soft delete never changes how
    many records the store lists, and a hard delete makes it one less. *)
Theorem change_in_the_listing id0 old w :
  well_formed w →
  result (getTodoById id0) w = Some old →
  ∃ before rest,
    result getAllTodos w = before ++ old :: rest
    ∧ Forall (λ todo, id todo ≠ id0) before
    ∧ (∀ content0 status0 priority0 project0 conversation0,
         let call := updateTask id0 content0 status0 priority0 project0
                                conversation0 in
         ∃ new, result call w = Task new
                ∧ result getAllTodos (after call w) = before ++ new :: rest)
    ∧ (∀ hardDelete, hardDelete = None ∨ hardDelete = Some false →
         let call := deleteTask id0 hardDelete in
         ∃ kept, result call w = Outcome (Cancelled kept)
                 ∧ result getAllTodos (after call w) = before ++ kept :: rest)
    ∧ result getAllTodos (after (deleteTask id0 (Some true)) w)
      = before ++ rest.
Proof.
  intros Hw (file & index & Hloc)%getTodoById_locate.
  destruct (all_todos_split id0 (dir w) file index old Hw Hloc)
    as (before & rest & Hall & Hbefore & Hinsert & Hdelete).
  exists before, rest. rewrite getAllTodos_result.
  split_and!; [done|done| | |].
  - intros content0 status0 priority0 project0 conversation0 call.
    destruct (updateTask_run id0 content0 status0 priority0 project0
                conversation0 w) as [Hres Hafter].
    fold call in Hres, Hafter. rewrite Hres, Hafter.
    set (updates := mkPartial _ _ _ _ _ _ _ _) in *.
    pose proof (updateTodo_spec id0 updates w) as Hspec. rewrite Hloc in Hspec.
    destruct Hspec as [-> (Hdir & _)].
    exists (spread old updates (now w)). split; [done|].
    by rewrite getAllTodos_result, Hdir.
  - intros hardDelete Hsoft call.
    assert (default false hardDelete = false) as Hdefault
      by by destruct Hsoft as [-> | ->].
    destruct (deleteTask_run id0 hardDelete w) as [Hres Hafter].
    fold call in Hres, Hafter. rewrite Hres, Hafter, Hdefault.
    pose proof (deleteTodo_spec id0 false w) as Hspec.
    rewrite Hloc in Hspec. destruct Hspec as [-> (Hdir & _)].
    exists (cancel old (now w)). split; [done|].
    by rewrite getAllTodos_result, Hdir.
  - destruct (deleteTask_run id0 (Some true) w) as [_ Hafter].
    change (default false (Some true)) with true in Hafter. rewrite Hafter.
    pose proof (deleteTodo_spec id0 true w) as Hspec.
    rewrite Hloc in Hspec. destruct Hspec as [_ (Hdir & _)].
    by rewrite getAllTodos_result, Hdir.
Qed.

Lemma change_in_the_listing_witness :
  let old := result (createTodo (mkData "fix bug" "pending" "high" None None))
                    example_world in
  ∃ before rest,
    result getAllTodos two_tasks_world = before ++ old :: rest
    ∧ result getAllTodos (after (deleteTask (id old) (Some true)) two_tasks_world)
      = before ++ rest.
Proof.
  intros old.
  destruct (change_in_the_listing (id old) old two_tasks_world)
    as (before & rest & Hall & _ & _ & _ & Hhard).
  { apply (bool_decide_unpack _). vm_compute. exact I. }
  { vm_compute. reflexivity. }
  exists before, rest. split; [exact Hall|exact Hhard].
Defined.

(** ** The two sources of [createTask] *)

Lemma or_default_filled s d : s ≠ "" → or_default (Some s) d = s.
Proof. intros Hs. unfold or_default. by destruct (String.eqb_spec s ""). Qed.

Lemma default_filled (d : string) (v : option string) :
  d ≠ "" → v ≠ Some "" → default d v ≠ "".
Proof. intros Hd Hv. destruct v as [s|]; cbn; congruence. Qed.

Lemma truthy_kept (v : option string) :
  v ≠ Some "" → (if truthy v then v else None) = v.
Proof.
  intros Hv. destruct v as [s|]; [|done]. unfold truthy.
  destruct (String.eqb_spec s ""); [congruence|done].
Qed.

(** X12.  The JavaScript and the TypeScript source of [createTask] do the
    same whenever no argument is the empty string: from the same store,
    with the same random numbers and clock, they answer with the same
    record and leave the same world.  (The TypeScript [createTodo] fills
    [status] and [priority] with [||] and drops a falsy [project] or
    [conversation], which shows for empty strings only.) *)
Theorem createTask_sources_agree
  content0 status0 priority0 project0 conversation0 w :
  status0 ≠ Some "" → priority0 ≠ Some "" →
  project0 ≠ Some "" → conversation0 ≠ Some "" →
  createTask_ts content0 status0 priority0 project0 conversation0 w
  = createTask content0 status0 priority0 project0 conversation0 w.
Proof.
  intros Hstatus Hpriority Hproject Hconversation.
  set (data_js := mkData content0 (default "pending" status0)
                         (default "medium" priority0) project0 conversation0).
  set (data_ts := mkPartial None (Some content0)
                            (Some (default "pending" status0))
                            (Some (default "medium" priority0))
                            project0 conversation0 None None).
  assert (createTodo_ts data_ts w = createTodo data_js w) as Hsame.
  { rewrite (createTodo_ts_run data_ts w), (createTodo_run data_js w).
    unfold data_ts, data_js.
    cbn [data_content data_status data_priority data_project data_conversation
         p_content p_status p_priority p_project p_conversation].
    rewrite or_default_Some, !or_default_filled, !truthy_kept;
      [reflexivity|done|done|by apply default_filled|by apply default_filled]. }
  unfold createTask, createTask_ts. cbv zeta. fold data_js data_ts.
  unfold bind. rewrite Hsame. reflexivity.
Qed.

Lemma createTask_sources_agree_witness :
  createTask_ts "fix bug" None (Some "high") (Some "docs") None example_world
  = createTask "fix bug" None (Some "high") (Some "docs") None example_world.
Proof.
  apply createTask_sources_agree; discriminate.
Defined.

(** X13.  Where the two sources of [createTask] part: on arguments that are
    the empty string.  The JavaScript source stores the empty string as it
    is given; the TypeScript source stores 'pending' for an empty [status],
    'medium' for an empty [priority], and no [project] or [conversation]
    for an empty one.  In every other respect the two records are the
    same. *)
Theorem createTask_sources_differ
  content0 status0 priority0 project0 conversation0 w :
  ∃ js ts,
    result (createTask content0 status0 priority0 project0 conversation0) w
    = Task js
    ∧ result (createTask_ts content0 status0 priority0 project0 conversation0) w
      = Task ts
    ∧ id ts = id js ∧ content ts = content js
    ∧ createdAt ts = createdAt js ∧ updatedAt ts = updatedAt js
    ∧ status js = default "pending" status0
    ∧ status ts = (if decide (status0 = Some "") then "pending" else status js)
    ∧ priority js = default "medium" priority0
    ∧ priority ts
      = (if decide (priority0 = Some "") then "medium" else priority js)
    ∧ project js = project0
    ∧ project ts = (if decide (project0 = Some "") then None else project0)
    ∧ conversation js = conversation0
    ∧ conversation ts
      = (if decide (conversation0 = Some "") then None else conversation0).
Proof.
  destruct (createTask_run content0 status0 priority0 project0 conversation0 w)
    as [Hjs _].
  destruct (createTask_ts_run content0 status0 priority0 project0
              conversation0 w) as [Hts _].
  cbv zeta in Hjs, Hts. rewrite Hjs, Hts.
  rewrite createTodo_result, createTodo_ts_result.
  cbn [data_content data_status data_priority data_project data_conversation
       p_content p_status p_priority p_project p_conversation].
  eexists _, _. split; [reflexivity|]. split; [reflexivity|].
  cbn [id content status priority project conversation createdAt updatedAt].
  split_and!; try done.
  - apply or_default_Some.
  - destruct (decide (status0 = Some "")) as [->|Hne]; [done|].
    by apply or_default_filled, default_filled.
  - destruct (decide (priority0 = Some "")) as [->|Hne]; [done|].
    by apply or_default_filled, default_filled.
  - destruct (decide (project0 = Some "")) as [->|Hne]; [done|].
    by apply truthy_kept.
  - destruct (decide (conversation0 = Some "")) as [->|Hne]; [done|].
    by apply truthy_kept.
Qed.

(** ** The names of the files *)

Lemma replace_outside_plain p :
  Forall (λ c, c ∈ letters_and_digits ∨ c = "-"%char)
         (list_ascii_of_string (replace_outside letters_and_digits p)).
Proof.
  induction p as [|c p IH]; [constructor|].
  cbn [replace_outside list_ascii_of_string]. constructor; [|exact IH].
  case_bool_decide; [by left|by right].
Qed.

Lemma sanitize_idem p : sanitize (sanitize p) = sanitize p.
Proof.
  induction p as [|c p IH]; [done|]. cbn [sanitize]. rewrite IH. f_equal.
  destruct (is_alnum c) eqn:Hc; [by rewrite Hc|reflexivity].
Qed.

(** X14.  Every file that [createTodo] writes has a plain name, whatever
    the project is called: a stem that is not empty, made of the letters
    and digits of [A-Za-z0-9] and of hyphens, followed by [.json].  The
    stem has no '/', no '\' and no '.', so no project name leads out of the
    todos directory, and the file is one that [getTodoFiles] lists.
    Sanitizing is idempotent: a project and its sanitized name share their
    file. *)
Theorem shard_names_are_plain project0 :
  plain_json_name (todosFileFor project0)
  ∧ (∃ stem, todosFileFor project0 = stem +:+ ".json"
             ∧ Forall (λ c, c ≠ "/"%char ∧ c ≠ "\"%char ∧ c ≠ "."%char)
                      (list_ascii_of_string stem))
  ∧ endsWith (todosFileFor project0) ".json" = true
  ∧ ∀ p, sanitize (sanitize p) = sanitize p
         ∧ todosFileFor (Some (sanitize p)) = todosFileFor (Some p).
Proof.
  assert (plain_json_name (todosFileFor project0)) as Hplain.
  { rewrite todosFileFor_shardFor.
    assert (plain_json_name ("default" +:+ ".json")) as Hdefault.
    { exists "default". split_and!; [done|done|].
      repeat constructor; left; by apply (bool_decide_unpack _). }
    unfold shardFor. destruct project0 as [p|]; [|exact Hdefault].
    destruct (decide (p = "")) as [->|Hp]; [exact Hdefault|].
    exists (replace_outside letters_and_digits p).
    split_and!; [done| |apply replace_outside_plain].
    by destruct p. }
  split_and!; [exact Hplain| |apply todosFileFor_json|].
  - destruct Hplain as (stem & Hfile & _ & Hstem). exists stem.
    split; [exact Hfile|]. eapply Forall_impl; [exact Hstem|].
    intros c [Hc| ->]; [|by split_and!].
    split_and!; intros ->; revert Hc; by apply (bool_decide_unpack _).
  - intros p. split; [apply sanitize_idem|].
    unfold todosFileFor. rewrite sanitize_idem.
    by destruct p.
Qed.

(** ** What an identifier keeps of the random numbers *)

Lemma toString16_nibble v :
  (0 <= v < 16)%Z → toString16 v = String (hex_digit v) "".
Proof.
  intros Hv%nibble_cases.
  repeat (apply elem_of_cons in Hv as [->|Hv]; [reflexivity|]).
  by apply elem_of_nil in Hv.
Qed.

Lemma hex_digit_inj v1 v2 :
  (0 <= v1 < 16)%Z → (0 <= v2 < 16)%Z → hex_digit v1 = hex_digit v2 → v1 = v2.
Proof.
  intros H1%nibble_cases H2%nibble_cases Heq.
  repeat (apply elem_of_cons in H1 as [->|H1];
    [repeat (apply elem_of_cons in H2 as [->|H2];
       [first [reflexivity|vm_compute in Heq; discriminate Heq]|]);
     by apply elem_of_nil in H2|]).
  by apply elem_of_nil in H1.
Qed.

Lemma digit_value_range c r :
  (0 <= r < 16)%Z → (0 <= digit_value c r < 16)%Z.
Proof.
  intros Hr. unfold digit_value. destruct (Ascii.eqb c "x"); [done|].
  apply nibble_cases in Hr.
  repeat (apply elem_of_cons in Hr as [->|Hr]; [vm_compute; by split|]).
  by apply elem_of_nil in Hr.
Qed.

Lemma digit_value_y r1 r2 :
  (0 <= r1 < 16)%Z → (0 <= r2 < 16)%Z →
  digit_value "y" r1 = digit_value "y" r2 ↔ Z.land r1 3 = Z.land r2 3.
Proof.
  intros H1%nibble_cases H2%nibble_cases.
  change (digit_value "y" r1) with (Z.lor (Z.land r1 3) 8).
  change (digit_value "y" r2) with (Z.lor (Z.land r2 3) 8).
  split; [|by intros ->]. intros Heq.
  repeat (apply elem_of_cons in H1 as [->|H1];
    [repeat (apply elem_of_cons in H2 as [->|H2];
       [first [reflexivity|vm_compute in Heq; discriminate Heq]|]);
     by apply elem_of_nil in H2|]).
  by apply elem_of_nil in H1.
Qed.

Lemma nibble_range w k :
  random_in_unit_interval w → (0 <= nibble w k < 16)%Z.
Proof. intros Hrand. by apply ToInt32_random; apply Hrand. Qed.

Lemma generateUUID_digit_result c w :
  result (generateUUID_digit c) w = toString16 (digit_value c (nibble w 0)).
Proof. reflexivity. Qed.

Lemma nibble_after_digit c w k :
  nibble (after (generateUUID_digit c) w) k = nibble w (S k).
Proof.
  unfold nibble. rewrite generateUUID_digit_after. cbn [random random_calls].
  by rewrite Nat.add_succ_r.
Qed.

Lemma random_in_unit_interval_after_digit c w :
  random_in_unit_interval w →
  random_in_unit_interval (after (generateUUID_digit c) w).
Proof. intros Hrand n. rewrite generateUUID_digit_after. apply Hrand. Qed.

(** Two runs of [replace] give the same string exactly when they put the
    same digit in every place. *)
Lemma replace_xy_same template w1 w2 :
  random_in_unit_interval w1 → random_in_unit_interval w2 →
  result (replace_xy generateUUID_digit template) w1
  = result (replace_xy generateUUID_digit template) w2
  ↔ ∀ k c, placeholders template !! k = Some c →
           digit_value c (nibble w1 k) = digit_value c (nibble w2 k).
Proof.
  revert w1 w2. induction template as [|c rest IH]; intros w1 w2 Hw1 Hw2.
  - split; [|done]. intros _ k c Hk. cbn [placeholders] in Hk.
    by rewrite lookup_nil in Hk.
  - cbn [replace_xy placeholders].
    destruct (Ascii.eqb c "x" || Ascii.eqb c "y").
    + rewrite !result_bind. cbn [ret result fst].
      rewrite !generateUUID_digit_result.
      rewrite !toString16_nibble
        by (by apply digit_value_range, nibble_range).
      change (String ?h "" +:+ ?t) with (String h t).
      pose proof (IH _ _ (random_in_unit_interval_after_digit c w1 Hw1)
                    (random_in_unit_interval_after_digit c w2 Hw2)) as Htail.
      split.
      * intros [= Hh Ht].
        apply hex_digit_inj in Hh;
          [|by apply digit_value_range, nibble_range..].
        intros [|k] c' Hk.
        -- injection Hk as <-. exact Hh.
        -- rewrite <- !(nibble_after_digit c). by apply Htail.
      * intros Hall. f_equal.
        -- f_equal. by apply (Hall 0).
        -- apply Htail. intros k c' Hk. rewrite !nibble_after_digit.
           by apply (Hall (S k)).
    + rewrite !result_bind. cbn [ret result fst]. rewrite <- IH by done.
      split; [by intros [= ?]|by intros ->].
Qed.

Lemma replace_xy_random_calls template w :
  random_calls (after (replace_xy generateUUID_digit template) w)
  = length (placeholders template) + random_calls w.
Proof.
  revert w. induction template as [|c rest IH]; intros w; [done|].
  cbn [replace_xy placeholders].
  destruct (Ascii.eqb c "x" || Ascii.eqb c "y").
  - rewrite !after_bind. cbn [ret after snd length]. rewrite IH.
    rewrite generateUUID_digit_after. cbn [random_calls]. lia.
  - rewrite !after_bind. cbn [ret after snd]. apply IH.
Qed.

(** X15.  An identifier keeps all that [generateUUID] draws, the two high
    bits of one draw apart.  [generateUUID] calls [Math.random] 31 times and
    touches nothing else; each call gives the number
    [Math.random() * 16 | 0], and two identifiers are equal exactly when
    these numbers are equal call by call, the sixteenth call counting for
    its two low bits only.  So two calls return one identifier only if
    [Math.random] repeats itself to that extent. *)
Theorem generateUUID_keeps_its_draws w1 w2 :
  random_in_unit_interval w1 → random_in_unit_interval w2 →
  (result generateUUID w1 = result generateUUID w2
   ↔ (∀ k, k < 31 → k ≠ 15 → nibble w1 k = nibble w2 k)
     ∧ Z.land (nibble w1 15) 3 = Z.land (nibble w2 15) 3)
  ∧ random_calls (after generateUUID w1) = 31 + random_calls w1
  ∧ only_draws w1 (after generateUUID w1).
Proof.
  intros Hw1 Hw2. split_and!;
    [|apply replace_xy_random_calls|apply generateUUID_after].
  unfold generateUUID. rewrite replace_xy_same by done.
  rewrite <- (digit_value_y (nibble w1 15) (nibble w2 15))
    by by apply nibble_range.
  generalize (nibble w1) (nibble w2). clear. intros n1 n2.
  let l := eval vm_compute in (placeholders uuid_template) in
  change (placeholders uuid_template) with l.
  split.
  - intros Hall. split.
    + intros k Hlt Hne.
      do 31 (destruct k as [|k];
        [first [match goal with
                | |- n1 ?i = _ => exact (Hall i "x"%char eq_refl)
                end|by destruct Hne]|]).
      lia.
    + exact (Hall 15 "y"%char eq_refl).
  - intros [Hx Hy] k c Hk.
    do 31 (destruct k as [|k];
      [cbv in Hk; injection Hk as <-;
       first [exact Hy
             |match goal with
              | |- digit_value _ (n1 ?i) = _ =>
                  exact (Hx i ltac:(lia) ltac:(lia))
              end]|]).
    discriminate Hk.
Qed.

Lemma generateUUID_keeps_its_draws_witness :
  result generateUUID example_world ≠ result generateUUID stuck_world.
Proof.
  intros Hsame.
  destruct (generateUUID_keeps_its_draws example_world stuck_world
              example_random_in_unit_interval stuck_random_in_unit_interval)
    as [Hiff _].
  apply Hiff in Hsame as [Hx _].
  specialize (Hx 1 ltac:(lia) ltac:(lia)). vm_compute in Hx. discriminate Hx.
Defined.

(** ** Criteria that ask the same *)

Lemma toLowerCase_char_idem c :
  toLowerCase_char (toLowerCase_char c) = toLowerCase_char c.
Proof. destruct c as [[] [] [] [] [] [] [] []]; reflexivity. Qed.

Lemma toLowerCase_idem s : toLowerCase (toLowerCase s) = toLowerCase s.
Proof.
  induction s as [|c s IH]; [done|].
  cbn [toLowerCase]. by rewrite toLowerCase_char_idem, IH.
Qed.

Lemma truthy_toLowerCase k1 k2 :
  toLowerCase k1 = toLowerCase k2 → truthy (Some k1) = truthy (Some k2).
Proof. by destruct k1, k2. Qed.

Lemma filter_all {A} (P : A → Prop) `{∀ x, Decision (P x)} (l : list A) :
  (∀ x, P x) → filter P l = l.
Proof.
  intros HP. induction l as [|x l IH]; [done|].
  by rewrite filter_cons_True, IH.
Qed.

(** X16.  Two keywords that differ only in the case of their letters
    select the same records, whatever the other criteria: [filterTodos]
    lowers the case of the keyword as it does that of the content.  In
    particular the keyword may be given in lower case. *)
Theorem keyword_case_is_ignored
  status0 priority0 project0 conversation0 keyword1 keyword2 w :
  toLowerCase keyword1 = toLowerCase keyword2 →
  result (filterTodos (mkFilters status0 priority0 project0 conversation0
                                 (Some keyword1))) w
  = result (filterTodos (mkFilters status0 priority0 project0 conversation0
                                   (Some keyword2))) w
  ∧ result (filterTodos (mkFilters status0 priority0 project0 conversation0
                                   (Some (toLowerCase keyword1)))) w
    = result (filterTodos (mkFilters status0 priority0 project0 conversation0
                                     (Some keyword1))) w.
Proof.
  assert (∀ k1 k2 todo, toLowerCase k1 = toLowerCase k2 →
            passes (mkFilters status0 priority0 project0 conversation0
                              (Some k1)) todo
            = passes (mkFilters status0 priority0 project0 conversation0
                                (Some k2)) todo) as Hpasses.
  { intros k1 k2 todo Hcase. unfold passes.
    cbn [f_status f_priority f_project f_conversation f_keyword].
    change (default "" (Some k1)) with k1.
    change (default "" (Some k2)) with k2.
    by rewrite Hcase, (truthy_toLowerCase k1 k2 Hcase). }
  assert (∀ k1 k2, toLowerCase k1 = toLowerCase k2 →
            result (filterTodos (mkFilters status0 priority0 project0
                                           conversation0 (Some k1))) w
            = result (filterTodos (mkFilters status0 priority0 project0
                                             conversation0 (Some k2))) w)
    as Hsame.
  { intros k1 k2 Hcase. rewrite !filterTodos_result.
    apply list_filter_iff. intros todo. by rewrite (Hpasses k1 k2 todo Hcase). }
  intros Hcase. split; [by apply Hsame|].
  apply Hsame, toLowerCase_idem.
Qed.

Lemma keyword_case_is_ignored_witness :
  result (filterTodos (mkFilters None None None None (Some "DOC")))
         two_tasks_world
  = result (filterTodos (mkFilters None None None None (Some "Doc")))
           two_tasks_world.
Proof.
  exact (proj1 (keyword_case_is_ignored None None None None "DOC" "Doc"
                  two_tasks_world eq_refl)).
Defined.

(** X17.  Criteria that are all absent or the empty string select every
    record: [filterTasks] then answers exactly what [getAllTasks] answers,
    the same records in the same order with the same count, and leaves the
    same world. *)
Theorem filterTasks_without_criteria criteria w :
  without_empty criteria = mkFilters None None None None None →
  filterTasks criteria w = getAllTasks w.
Proof.
  intros Hnone.
  assert (∀ todo, passes criteria todo = true) as Hpasses.
  { intros todo. apply passes_satisfies. rewrite Hnone.
    by repeat split. }
  apply injective_projections.
  - change (result (filterTasks criteria) w = result getAllTasks w).
    unfold filterTasks, getAllTasks.
    rewrite (result_bind (filterTodos criteria)), (result_bind getAllTodos).
    cbn [ret result fst]. rewrite filterTodos_result, filter_all; [done|].
    intros todo. by rewrite Hpasses.
  - change (after (filterTasks criteria) w = after getAllTasks w).
    unfold filterTasks, getAllTasks.
    rewrite (after_bind (filterTodos criteria)), (after_bind getAllTodos).
    cbn [ret after snd]. unfold filterTodos.
    by rewrite (after_bind getAllTodos).
Qed.

Lemma filterTasks_without_criteria_witness :
  filterTasks (mkFilters None (Some "") None None (Some "")) two_tasks_world
  = getAllTasks two_tasks_world.
Proof.
  exact (filterTasks_without_criteria
           (mkFilters None (Some "") None None (Some "")) two_tasks_world
           eq_refl).
Defined.

(** ** Readings of the clock *)

(** X19.  How the store reads the clock.  [createTodo], in either source,
    reads it twice: [createdAt] is the first reading and [updatedAt] the
    second, so the two need not be equal.  [updateTodo] and the soft
    [deleteTodo] read it once when the id is found and not at all when it
    is not; the hard [deleteTodo] never reads it. *)
Theorem clock_readings w :
  (∀ todoData,
     createdAt (result (createTodo todoData) w) = clock w (clock_calls w)
     ∧ updatedAt (result (createTodo todoData) w) = clock w (S (clock_calls w))
     ∧ clock_calls (after (createTodo todoData) w) = 2 + clock_calls w)
  ∧ (∀ todoData,
       createdAt (result (createTodo_ts todoData) w) = clock w (clock_calls w)
       ∧ updatedAt (result (createTodo_ts todoData) w)
         = clock w (S (clock_calls w))
       ∧ clock_calls (after (createTodo_ts todoData) w) = 2 + clock_calls w)
  ∧ (∀ id0 updates,
       clock_calls (after (updateTodo id0 updates) w)
       = match result (getTodoById id0) w with
         | Some _ => 1 + clock_calls w
         | None => clock_calls w
         end)
  ∧ (∀ id0,
       clock_calls (after (deleteTodo id0 false) w)
       = match result (getTodoById id0) w with
         | Some _ => 1 + clock_calls w
         | None => clock_calls w
         end)
  ∧ (∀ id0, clock_calls (after (deleteTodo id0 true) w) = clock_calls w).
Proof.
  split_and!.
  - intros todoData. rewrite createTodo_result.
    by destruct (createTodo_after todoData w) as (_ & _ & _ & ->).
  - intros todoData. rewrite createTodo_ts_result.
    by destruct (createTodo_ts_after todoData w) as (_ & _ & _ & ->).
  - intros id0 updates. pose proof (updateTodo_spec id0 updates w) as Hspec.
    rewrite getTodoById_result.
    destruct (locate id0 (dir w) (todo_files (dir w))) as [[[file index] old]|].
    + by destruct Hspec as [_ (_ & _ & _ & _ & ->)].
    + by destruct Hspec as [_ (_ & _ & _ & _ & ->)].
  - intros id0. pose proof (deleteTodo_spec id0 false w) as Hspec.
    rewrite getTodoById_result.
    destruct (locate id0 (dir w) (todo_files (dir w))) as [[[file index] old]|].
    + by destruct Hspec as [_ (_ & _ & _ & _ & ->)].
    + by destruct Hspec as [_ (_ & _ & _ & _ & ->)].
  - intros id0. pose proof (deleteTodo_spec id0 true w) as Hspec.
    destruct (locate id0 (dir w) (todo_files (dir w))) as [[[file index] old]|].
    + by destruct Hspec as [_ (_ & _ & _ & _ & ->)].
    + by destruct Hspec as [_ (_ & _ & _ & _ & ->)].
Qed.

(** ** Creating, then deleting *)

Lemma without_id_fresh id0 todos :
  id0 ∉ map id todos → without_id id0 todos = todos.
Proof.
  intros Hfresh. unfold without_id. induction todos as [|todo todos IH]; [done|].
  cbn [map] in Hfresh. apply not_elem_of_cons in Hfresh as [Hne Hfresh].
  rewrite filter_cons_True by done. by rewrite IH.
Qed.

Lemma with_id_created file newTodo w w' :
  well_formed w → endsWith file ".json" = true →
  created_in file newTodo w w' →
  id newTodo ∉ map id (result getAllTodos w) →
  with_id (id newTodo) (result getAllTodos w') = [newTodo].
Proof.
  intros Hw Hjson Hcreated Hfresh.
  destruct (created_in_all_todos _ _ _ _ Hw Hjson Hcreated) as [Hall _].
  apply Permutation_singleton_r. unfold with_id. rewrite Hall.
  rewrite filter_app, filter_cons_True, filter_nil by done.
  apply with_id_nil in Hfresh. unfold with_id in Hfresh. by rewrite Hfresh.
Qed.

(** X20.  Creating a record and then hard-deleting it by the id returned
    brings the list of all records back to what it was, the same records in
    the same order, and the id is not found any more.  This needs the
    identifier drawn to be new to the store and the entries of the
    directory to have distinct names.  (The file of the project stays,
    holding the empty array if it was created for the record.) *)
Theorem create_then_hard_delete todoData w :
  well_formed w →
  id (result (createTodo todoData) w) ∉ map id (result getAllTodos w) →
  let new := result (createTodo todoData) w in
  let w1 := after (createTodo todoData) w in
  let call := deleteTask (id new) (Some true) in
  result call w1 = Outcome (Deleted (id new) true)
  ∧ result getAllTodos (after call w1) = result getAllTodos w
  ∧ result (getTodoById (id new)) (after call w1) = None.
Proof.
  intros Hw Hfresh new w1 call. fold new in Hfresh.
  pose proof (createTodo_after todoData w) as Hcreated.
  fold new w1 in Hcreated.
  pose proof (todosFileFor_json (data_project todoData)) as Hjson.
  pose proof (created_in_found _ _ _ _ Hjson Hcreated Hfresh) as Hget.
  pose proof (with_id_created _ _ _ _ Hw Hjson Hcreated Hfresh) as Hone.
  destruct (created_in_others_untouched _ _ _ _ Hjson Hcreated)
    as [_ [Hothers _]].
  clearbody new w1. clear Hcreated.
  destruct (getTodoById_locate _ _ _ Hget) as (file & index & Hloc).
  destruct (deleteTask_run (id new) (Some true) w1) as [Hres Hafter].
  change (default false (Some true)) with true in Hres, Hafter.
  fold call in Hres, Hafter. rewrite Hres, Hafter.
  pose proof (deleteTodo_spec (id new) true w1) as Hspec.
  rewrite Hloc in Hspec. destruct Hspec as [-> Hwrote].
  pose proof (wrote_gone _ _ _ _ _ _ Hloc Hwrote Hone) as Hgone.
  destruct (wrote_delete_others_untouched _ _ _ _ _ _ Hloc Hwrote)
    as [Hothers' _].
  split_and!; [done| |done].
  rewrite getTodoById_head, head_None in Hgone. apply with_id_nil in Hgone.
  rewrite <- (without_id_fresh _ _ Hgone), Hothers', Hothers.
  by apply without_id_fresh.
Qed.

Lemma create_then_hard_delete_witness :
  let todoData := mkData "review" "pending" "low" (Some "docs") None in
  let new := result (createTodo todoData) two_tasks_world in
  let w1 := after (createTodo todoData) two_tasks_world in
  result getAllTodos (after (deleteTask (id new) (Some true)) w1)
  = result getAllTodos two_tasks_world.
Proof.
  intros todoData new w1.
  destruct (create_then_hard_delete todoData two_tasks_world)
    as (_ & Hall & _).
  { apply (bool_decide_unpack _). vm_compute. exact I. }
  { apply (bool_decide_unpack _). vm_compute. exact I. }
  exact Hall.
Defined.

(** ** One file at a time *)

Lemma store_file_others file text d other :
  other ≠ file →
  lookup_file other (store_file file text d) = lookup_file other d.
Proof.
  intros Hne. rewrite lookup_store_file.
  destruct (String.eqb_spec file other); congruence.
Qed.

Lemma updateTodo_one_file id0 updates w :
  ∃ file, endsWith file ".json" = true
          ∧ ∀ other, other ≠ file →
              lookup_file other (dir (after (updateTodo id0 updates) w))
              = lookup_file other (dir w).
Proof.
  pose proof (updateTodo_spec id0 updates w) as Hspec.
  destruct (locate id0 (dir w) (todo_files (dir w)))
    as [[[file index] old]|] eqn:Hloc.
  - destruct Hspec as [_ (Hdir & _)]. exists file.
    apply locate_Some in Hloc as [[_ Hjson]%todo_files_json _].
    split; [done|]. intros other Hne. rewrite Hdir.
    by apply store_file_others.
  - destruct Hspec as [_ (Hdir & _)]. exists DEFAULT_TODOS_FILE.
    split; [done|]. intros other _. by rewrite Hdir.
Qed.

Lemma deleteTodo_one_file id0 hardDelete w :
  ∃ file, endsWith file ".json" = true
          ∧ ∀ other, other ≠ file →
              lookup_file other (dir (after (deleteTodo id0 hardDelete) w))
              = lookup_file other (dir w).
Proof.
  pose proof (deleteTodo_spec id0 hardDelete w) as Hspec.
  destruct (locate id0 (dir w) (todo_files (dir w)))
    as [[[file index] old]|] eqn:Hloc.
  - exists file.
    apply locate_Some in Hloc as [[_ Hjson]%todo_files_json _].
    split; [done|]. intros other Hne. unfold delete_outcome in Hspec.
    destruct hardDelete; destruct Hspec as [_ (Hdir & _)]; rewrite Hdir;
      by apply store_file_others.
  - destruct Hspec as [_ (Hdir & _)]. exists DEFAULT_TODOS_FILE.
    split; [done|]. intros other _. by rewrite Hdir.
Qed.

Lemma created_in_one_file file newTodo w w' other :
  created_in file newTodo w w' → other ≠ file →
  lookup_file other (dir w') = lookup_file other (dir w).
Proof. intros (Hdir & _) Hne. rewrite Hdir. by apply store_file_others. Qed.

(** X21.  A call of a tool changes one file of the todos directory at
    most, and that file is a [.json] file: every other entry of the
    directory holds afterwards the text it held before.  In particular an
    [updateTask] that gives a record another [project] writes the file the
    record is in and no other. *)
Theorem tool_call_changes_one_file {call} w :
  tool_call call →
  ∃ file, endsWith file ".json" = true
          ∧ ∀ other, other ≠ file →
              lookup_file other (dir (after call w)) = lookup_file other (dir w).
Proof.
  assert (∀ w', dir w' = dir w →
            ∃ file, endsWith file ".json" = true
                    ∧ ∀ other, other ≠ file →
                        lookup_file other (dir w') = lookup_file other (dir w))
    as Hread.
  { intros w' Hdir. exists DEFAULT_TODOS_FILE. split; [done|].
    intros other _. by rewrite Hdir. }
  intros Hcall. destruct Hcall.
  - apply Hread. by destruct (proj1 quiet_read_tools w) as (-> & _).
  - apply Hread.
    by destruct (proj1 (proj2 quiet_read_tools) id0 w) as (-> & _).
  - destruct (createTask_run content0 status0 priority0 project0
                conversation0 w) as [_ ->].
    set (todoData := mkData _ _ _ _ _).
    exists (todosFileFor project0). split; [apply todosFileFor_json|].
    intros other Hne.
    exact (created_in_one_file _ _ _ _ _ (createTodo_after todoData w) Hne).
  - destruct (createTask_ts_run content0 status0 priority0 project0
                conversation0 w) as [_ ->].
    set (todoData := mkPartial _ _ _ _ _ _ _ _).
    exists (todosFileFor project0). split; [apply todosFileFor_json|].
    intros other Hne.
    exact (created_in_one_file _ _ _ _ _ (createTodo_ts_after todoData w) Hne).
  - destruct (updateTask_run id0 content0 status0 priority0 project0
                conversation0 w) as [_ Hafter].
    cbv zeta in Hafter. rewrite Hafter. apply updateTodo_one_file.
  - destruct (deleteTask_run id0 hardDelete w) as [_ ->].
    apply deleteTodo_one_file.
  - apply Hread.
    by destruct (proj2 (proj2 quiet_read_tools) filters w) as (-> & _).
Qed.

Lemma tool_call_changes_one_file_witness :
  let old := result (createTodo (mkData "fix bug" "pending" "high" None None))
                    example_world in
  let call := updateTask (id old) None None None (Some "docs") None in
  ∃ file, endsWith file ".json" = true
          ∧ ∀ other, other ≠ file →
              lookup_file other (dir (after call two_tasks_world))
              = lookup_file other (dir two_tasks_world).
Proof.
  intros old call. apply tool_call_changes_one_file. apply call_updateTask.
Defined.
